(** * ollama-commit: the stream accumulator, the cleanup of the generated
    message, the prompt rendering and the command handler of
    [src/extension.ts], embedded in Rocq.

    JavaScript strings are sequences of UTF-16 code units and are modelled as
    [list N]; a [Buffer] is a list of bytes.  The functions of the JavaScript
    runtime that the extension calls ([Buffer.toString], [split], [trim],
    [substring], [startsWith], [endsWith], [replace], [JSON.parse]) are
    written out with the behaviour the language standard gives them, and the
    extension's own code is translated on top of them. *)

From Stdlib Require Import Strings.Ascii Strings.String Strings.Byte.
From Stdlib Require Import DecimalString.
From Stdlib Require Import List NArith ZArith Lia Bool.
Import ListNotations.

Set Warnings "-register-all".

(* ================================================================== *)
(** ** JavaScript strings and buffers *)
(* ================================================================== *)

Module JS.

Definition jsstring := list N.
Definition Buffer := list byte.

(** Literals.  [txt s] is the JavaScript string with the characters of the
    ASCII literal [s], where a grave accent (code 96) stands for the double
    quote (code 34), so that JSON texts can be written inline. *)
Definition unit_of_ascii (a : ascii) : N :=
  let n := N_of_ascii a in if (n =? 96)%N then 34%N else n.

Definition txt (s : string) : jsstring :=
  map unit_of_ascii (list_ascii_of_string s).

(** [bytes s] is the buffer holding the same ASCII text. *)
Definition byte_of_unit (n : N) : byte :=
  match Byte.of_N n with Some b => b | None => x00 end.

Definition bytes (s : string) : Buffer := map byte_of_unit (txt s).

(** [line s] is that text closed by a newline. *)
Definition line (s : string) : Buffer := bytes s ++ [x0a].

Definition eqb (s t : jsstring) : bool :=
  if list_eq_dec N.eq_dec s t then true else false.

Definition isEmpty (s : jsstring) : bool :=
  match s with [] => true | _ :: _ => false end.

(** *** [Buffer.prototype.toString()]: UTF-8 decoding with replacement *)

(** The decoder of the WHATWG Encoding standard, which Node follows: every
    byte that cannot continue the sequence in progress, and a sequence cut off
    by the end of the buffer, produce U+FFFD. *)
Record Utf8State := {
  needed : N;
  seen : N;
  codePoint : N;
  lower : N;
  upper : N }.

Definition utf8Start : Utf8State :=
  {| needed := 0; seen := 0; codePoint := 0; lower := 0x80; upper := 0xBF |}.

Definition between (lo hi b : N) : bool := ((lo <=? b) && (b <=? hi))%N.

Definition utf8Lead (b : N) : Utf8State * list N :=
  if (b <=? 0x7F)%N then (utf8Start, [b])
  else if between 0xC2 0xDF b then
    ({| needed := 1; seen := 0; codePoint := N.land b 0x1F;
        lower := 0x80; upper := 0xBF |}, [])
  else if between 0xE0 0xEF b then
    ({| needed := 2; seen := 0; codePoint := N.land b 0xF;
        lower := if (b =? 0xE0)%N then 0xA0%N else 0x80%N;
        upper := if (b =? 0xED)%N then 0x9F%N else 0xBF%N |}, [])
  else if between 0xF0 0xF4 b then
    ({| needed := 3; seen := 0; codePoint := N.land b 0x7;
        lower := if (b =? 0xF0)%N then 0x90%N else 0x80%N;
        upper := if (b =? 0xF4)%N then 0x8F%N else 0xBF%N |}, [])
  else (utf8Start, [0xFFFD%N]).

Definition utf8Step (st : Utf8State) (b : N) : Utf8State * list N :=
  if (needed st =? 0)%N then utf8Lead b
  else if between (lower st) (upper st) b then
    let cp := N.lor (N.shiftl (codePoint st) 6) (N.land b 0x3F) in
    let n := (seen st + 1)%N in
    if (n =? needed st)%N then (utf8Start, [cp])
    else ({| needed := needed st; seen := n; codePoint := cp;
             lower := 0x80; upper := 0xBF |}, [])
  else
    let (st', out) := utf8Lead b in (st', 0xFFFD%N :: out).

Fixpoint utf8Decode (st : Utf8State) (bs : Buffer) : list N :=
  match bs with
  | [] => if (needed st =? 0)%N then [] else [0xFFFD%N]
  | b :: bs' =>
      let (st', out) := utf8Step st (Byte.to_N b) in
      out ++ utf8Decode st' bs'
  end.

(** A code point above U+FFFF is a surrogate pair in the string. *)
Definition utf16Units (c : N) : list N :=
  if (c <? 0x10000)%N then [c]
  else let c' := (c - 0x10000)%N in
       [(0xD800 + N.shiftr c' 10)%N; (0xDC00 + N.land c' 0x3FF)%N].

Definition toString (chunk : Buffer) : jsstring :=
  flat_map utf16Units (utf8Decode utf8Start chunk).

(** *** [String.prototype.split] on a one-unit separator *)

Fixpoint split (sep : N) (s : jsstring) : list jsstring :=
  match s with
  | [] => [[]]
  | c :: s' =>
      if (c =? sep)%N then [] :: split sep s'
      else match split sep s' with
           | l :: ls => (c :: l) :: ls
           | [] => [[c]]
           end
  end.

(** *** [String.prototype.trim] *)

(** WhiteSpace and LineTerminator of ECMAScript. *)
Definition isWhiteSpace (c : N) : bool :=
  between 9 13 c || (c =? 32)%N || (c =? 0xA0)%N || (c =? 0x1680)%N
  || between 0x2000 0x200A c || (c =? 0x2028)%N || (c =? 0x2029)%N
  || (c =? 0x202F)%N || (c =? 0x205F)%N || (c =? 0x3000)%N || (c =? 0xFEFF)%N.

Fixpoint trimStart (s : jsstring) : jsstring :=
  match s with
  | [] => []
  | c :: s' => if isWhiteSpace c then trimStart s' else s
  end.

Definition trimEnd (s : jsstring) : jsstring := rev (trimStart (rev s)).

Definition trim (s : jsstring) : jsstring := trimEnd (trimStart s).

(** *** [startsWith], [endsWith], [substring], [includes] *)

Fixpoint startsWith (s p : jsstring) {struct p} : bool :=
  match p, s with
  | [], _ => true
  | _ :: _, [] => false
  | a :: p', c :: s' => (a =? c)%N && startsWith s' p'
  end.

Definition endsWith (s p : jsstring) : bool := startsWith (rev s) (rev p).

(** [substring(start, end)]: both bounds are clamped to [0, length] and
    swapped when start exceeds end. *)
Definition clamp (len i : Z) : Z := Z.max 0 (Z.min i len).

Definition substring (s : jsstring) (start finish : Z) : jsstring :=
  let len := Z.of_nat (length s) in
  let a := clamp len start in
  let b := clamp len finish in
  let from := Z.min a b in
  let to := Z.max a b in
  firstn (Z.to_nat (to - from)) (skipn (Z.to_nat from) s).

(** [substring(start)]: the end defaults to the length. *)
Definition substringFrom (s : jsstring) (start : Z) : jsstring :=
  substring s start (Z.of_nat (length s)).

(** First occurrence of [pat] in [s]: the text before it and the text after. *)
Fixpoint search (pat s : jsstring) : option (jsstring * jsstring) :=
  if startsWith s pat then Some ([], skipn (length pat) s)
  else match s with
       | [] => None
       | c :: s' =>
           match search pat s' with
           | Some (before, after) => Some (c :: before, after)
           | None => None
           end
       end.

Definition includes (s pat : jsstring) : bool :=
  match search pat s with Some _ => true | None => false end.

(** *** [String.prototype.replace] with a string pattern *)

(** GetSubstitution of ECMAScript for a string pattern (no captures): in the
    replacement text, [$$] is a dollar sign, [$&] the matched text, [$`] the
    text before the match and [$'] the text after it; any other character
    after a dollar sign leaves the dollar sign as it is. *)
Fixpoint getSubstitution (matched before after template : jsstring) : jsstring :=
  match template with
  | [] => []
  | c :: t =>
      if (c =? 36)%N then
        match t with
        | [] => [c]
        | d :: t' =>
            if (d =? 36)%N then 36%N :: getSubstitution matched before after t'
            else if (d =? 38)%N then matched ++ getSubstitution matched before after t'
            else if (d =? 96)%N then before ++ getSubstitution matched before after t'
            else if (d =? 39)%N then after ++ getSubstitution matched before after t'
            else c :: getSubstitution matched before after t
        end
      else c :: getSubstitution matched before after t
  end.

Definition replace (s pat replacement : jsstring) : jsstring :=
  match search pat s with
  | Some (before, after) =>
      before ++ getSubstitution pat before after replacement ++ after
  | None => s
  end.

(** *** [replace(/^literal/i, '')] *)

(** Canonicalize of a case-insensitive, non-unicode regular expression on
    code units below 128 (upper case of the ASCII letters).  A code unit
    from 128 on never canonicalizes to one below 128, and the patterns of
    the extension are ASCII, so comparing with this function decides the
    match for every input. *)
Definition canonicalize (c : N) : N :=
  if between 97 122 c then (c - 32)%N else c.

Fixpoint matchIgnoreCase (pat s : jsstring) : option jsstring :=
  match pat, s with
  | [], _ => Some s
  | _ :: _, [] => None
  | p :: pat', c :: s' =>
      if (canonicalize p =? canonicalize c)%N then matchIgnoreCase pat' s'
      else None
  end.

(** The pattern is anchored at the start and has no [g] flag: the label is
    removed when the string starts with it, once. *)
Definition replaceLeadingIgnoreCase (s pat : jsstring) : jsstring :=
  match matchIgnoreCase pat s with
  | Some rest => rest
  | None => s
  end.

(** Template literals [${n}] of a non-negative integer. *)
Definition numberToString (n : N) : jsstring :=
  map unit_of_ascii (list_ascii_of_string (NilEmpty.string_of_uint (N.to_uint n))).

End JS.

(* ================================================================== *)
(** ** [JSON.parse] and the record of the response stream *)
(* ================================================================== *)

(** The interface [OllamaGenerateResponse]: the two members the stream
    protocol is about.  [response] is [None] when the member is absent (or
    holds a value that [parsed.response || ''] turns into the empty string),
    and else the string that is appended for it; the remaining members of
    the interface are never read. *)
Record OllamaGenerateResponse := {
  response : option JS.jsstring;
  done : bool }.

Module JSON.
Import JS.

Inductive value :=
| Null
| Bool (b : bool)
| Number (literal : jsstring)
| Str (s : jsstring)
| Array (elements : list value)
| Object (members : list (jsstring * value)).

Definition isJsonSpace (c : N) : bool :=
  ((c =? 32) || (c =? 9) || (c =? 10) || (c =? 13))%N.

Fixpoint skipSpace (s : jsstring) : jsstring :=
  match s with
  | [] => []
  | c :: s' => if isJsonSpace c then skipSpace s' else s
  end.

Definition isDigit (c : N) : bool := between 48 57 c.

Fixpoint digits (s : jsstring) : jsstring * jsstring :=
  match s with
  | [] => ([], [])
  | c :: s' =>
      if isDigit c then let (ds, r) := digits s' in (c :: ds, r)
      else ([], s)
  end.

(** number = [-] int [frac] [exp] *)
Definition parseInt (s : jsstring) : option (jsstring * jsstring) :=
  match s with
  | [] => None
  | c :: r =>
      if (c =? 48)%N then Some ([c], r)
      else if isDigit c then let (ds, r') := digits r in Some (c :: ds, r')
      else None
  end.

Definition parseFrac (s : jsstring) : option (jsstring * jsstring) :=
  match s with
  | c :: r =>
      if (c =? 46)%N then
        match digits r with
        | ([], _) => None
        | (ds, r') => Some (c :: ds, r')
        end
      else Some ([], s)
  | [] => Some ([], s)
  end.

Definition parseExp (s : jsstring) : option (jsstring * jsstring) :=
  match s with
  | c :: r =>
      if ((c =? 101) || (c =? 69))%N then
        let (sign, r1) :=
          match r with
          | d :: r' => if ((d =? 43) || (d =? 45))%N then ([d], r') else ([], r)
          | [] => ([], r)
          end in
        match digits r1 with
        | ([], _) => None
        | (ds, r') => Some (c :: sign ++ ds, r')
        end
      else Some ([], s)
  | [] => Some ([], s)
  end.

Definition parseNumber (s : jsstring) : option (jsstring * jsstring) :=
  let (sign, s1) :=
    match s with
    | c :: r => if (c =? 45)%N then ([c], r) else ([], s)
    | [] => ([], s)
    end in
  match parseInt s1 with
  | None => None
  | Some (i, s2) =>
      match parseFrac s2 with
      | None => None
      | Some (f, s3) =>
          match parseExp s3 with
          | None => None
          | Some (e, s4) => Some (sign ++ i ++ f ++ e, s4)
          end
      end
  end.

Definition hexDigit (c : N) : option N :=
  if between 48 57 c then Some (c - 48)%N
  else if between 97 102 c then Some (c - 87)%N
  else if between 65 70 c then Some (c - 55)%N
  else None.

Definition hex4 (a b c d : N) : option N :=
  match hexDigit a, hexDigit b, hexDigit c, hexDigit d with
  | Some x, Some y, Some z, Some w => Some (((x * 16 + y) * 16 + z) * 16 + w)%N
  | _, _, _, _ => None
  end.

(** The single-character escapes: quote, backslash, slash, b, f, n, r, t. *)
Definition escape (e : N) : option N :=
  if ((e =? 34) || (e =? 92) || (e =? 47))%N then Some e
  else if (e =? 98)%N then Some 8%N
  else if (e =? 102)%N then Some 12%N
  else if (e =? 110)%N then Some 10%N
  else if (e =? 114)%N then Some 13%N
  else if (e =? 116)%N then Some 9%N
  else None.

Definition consUnit (c : N) (r : option (jsstring * jsstring)) :
  option (jsstring * jsstring) :=
  match r with
  | Some (s, rest) => Some (c :: s, rest)
  | None => None
  end.

(** The characters of a string after its opening quote, up to the closing
    one: control characters are refused, escapes are decoded. *)
Fixpoint parseChars (s : jsstring) : option (jsstring * jsstring) :=
  match s with
  | [] => None
  | c :: r =>
      if (c =? 34)%N then Some ([], r)
      else if (c =? 92)%N then
        match r with
        | [] => None
        | e :: r' =>
            if (e =? 117)%N then
              match r' with
              | h1 :: h2 :: h3 :: h4 :: r'' =>
                  match hex4 h1 h2 h3 h4 with
                  | Some u => consUnit u (parseChars r'')
                  | None => None
                  end
              | _ => None
              end
            else
              match escape e with
              | Some u => consUnit u (parseChars r')
              | None => None
              end
        end
      else if (c <? 32)%N then None
      else consUnit c (parseChars r)
  end.

Section Containers.
Variable parseElement : jsstring -> option (value * jsstring).

(** value { , value } ] *)
Fixpoint parseElements (fuel : nat) (s : jsstring) :
  option (list value * jsstring) :=
  match fuel with
  | O => None
  | S fuel' =>
      match parseElement s with
      | None => None
      | Some (v, r) =>
          match skipSpace r with
          | c :: r' =>
              if (c =? 44)%N then
                match parseElements fuel' r' with
                | Some (vs, r'') => Some (v :: vs, r'')
                | None => None
                end
              else if (c =? 93)%N then Some ([v], r')
              else None
          | [] => None
          end
      end
  end.

(** string : value { , string : value } } *)
Fixpoint parseMembers (fuel : nat) (s : jsstring) :
  option (list (jsstring * value) * jsstring) :=
  match fuel with
  | O => None
  | S fuel' =>
      match skipSpace s with
      | q :: r0 =>
          if (q =? 34)%N then
            match parseChars r0 with
            | None => None
            | Some (key, r1) =>
                match skipSpace r1 with
                | colon :: r2 =>
                    if (colon =? 58)%N then
                      match parseElement r2 with
                      | None => None
                      | Some (v, r3) =>
                          match skipSpace r3 with
                          | c :: r4 =>
                              if (c =? 44)%N then
                                match parseMembers fuel' r4 with
                                | Some (ms, r5) => Some ((key, v) :: ms, r5)
                                | None => None
                                end
                              else if (c =? 125)%N then Some ([(key, v)], r4)
                              else None
                          | [] => None
                          end
                      end
                    else None
                | [] => None
                end
            end
          else None
      | [] => None
      end
  end.
End Containers.

(** One JSON value with the space before it.  The fuel bounds the nesting
    depth and the number of elements of a container; the length of the text
    bounds both. *)
Fixpoint parseValue (fuel : nat) (s : jsstring) : option (value * jsstring) :=
  match fuel with
  | O => None
  | S fuel' =>
      match skipSpace s with
      | [] => None
      | c :: r =>
          if (c =? 123)%N then
            match skipSpace r with
            | c' :: r' =>
                if (c' =? 125)%N then Some (Object [], r')
                else match parseMembers (parseValue fuel') fuel' r with
                     | Some (ms, r'') => Some (Object ms, r'')
                     | None => None
                     end
            | [] => None
            end
          else if (c =? 91)%N then
            match skipSpace r with
            | c' :: r' =>
                if (c' =? 93)%N then Some (Array [], r')
                else match parseElements (parseValue fuel') fuel' r with
                     | Some (vs, r'') => Some (Array vs, r'')
                     | None => None
                     end
            | [] => None
            end
          else if (c =? 34)%N then
            match parseChars r with
            | Some (str, r') => Some (Str str, r')
            | None => None
            end
          else if startsWith (c :: r) (txt "true") then Some (Bool true, skipn 4 (c :: r))
          else if startsWith (c :: r) (txt "false") then Some (Bool false, skipn 5 (c :: r))
          else if startsWith (c :: r) (txt "null") then Some (Null, skipn 4 (c :: r))
          else match parseNumber (c :: r) with
               | Some (n, r') => Some (Number n, r')
               | None => None
               end
      end
  end.

(** [JSON.parse(text)]: one value, surrounded by optional space, and nothing
    else; [None] stands for the SyntaxError. *)
Definition parse (text : jsstring) : option value :=
  match parseValue (S (length text)) text with
  | Some (v, rest) =>
      match skipSpace rest with
      | [] => Some v
      | _ :: _ => None
      end
  | None => None
  end.

(** Reading a member: the last member of that name wins. *)
Fixpoint member (name : jsstring) (ms : list (jsstring * value)) : option value :=
  match ms with
  | [] => None
  | (k, v) :: ms' =>
      match member name ms' with
      | Some v' => Some v'
      | None => if JS.eqb k name then Some v else None
      end
  end.

(** *** The coercion of a parsed value to a string

    [generatedMessage += parsed.response || ''] appends the string that
    JavaScript makes of the member. *)

(** The digits of a number literal before its exponent, sign and point
    left out. *)
Fixpoint mantissaDigits (literal : jsstring) : jsstring :=
  match literal with
  | [] => []
  | c :: l =>
      if ((c =? 101) || (c =? 69))%N then []
      else if isDigit c then c :: mantissaDigits l
      else mantissaDigits l
  end.

(** The literal denotes zero: [0], [-0], [0.00], [0e5]. *)
Definition isZero (literal : jsstring) : bool :=
  forallb (fun c => (c =? 48)%N) (mantissaDigits literal).

(** The literal is an integer of at most 15 digits: the number is exact and
    its string is the literal. *)
Definition isShortInteger (literal : jsstring) : bool :=
  forallb (fun c => isDigit c || (c =? 45)%N) literal
  && (length (mantissaDigits literal) <=? 15).

(** [String(number)].  Zero, of either sign, is [0]; a short integer is its
    literal.  The string of any other number (a fraction, an exponent, more
    than 15 digits) needs the rounding and the printing of floating point,
    which is not modelled: [None]. *)
Definition numberText (literal : jsstring) : option jsstring :=
  if isZero literal then Some [48%N]
  else if isShortInteger literal then Some literal
  else None.

(** [String(value)] for a value that is appended.  An array is its elements
    joined by commas, [null] among them an empty string; an object is
    [[object Object]], unless it has a member named [toString], which hides
    the method and makes the coercion throw a TypeError.  [None] stands for
    that error and for a number outside [numberText]. *)
Fixpoint toText (v : value) : option jsstring :=
  match v with
  | Null => Some (txt "null")
  | Bool true => Some (txt "true")
  | Bool false => Some (txt "false")
  | Number literal => numberText literal
  | Str s => Some s
  | Array elements =>
      (fix join (elements : list value) : option jsstring :=
         match elements with
         | [] => Some []
         | e :: rest =>
             match (match e with Null => Some [] | _ => toText e end), join rest with
             | Some t, Some r =>
                 Some (match rest with [] => t | _ :: _ => t ++ 44%N :: r end)
             | _, _ => None
             end
         end) elements
  | Object ms =>
      match member (txt "toString") ms with
      | Some _ => None
      | None => Some (txt "[object Object]")
      end
  end.

(** [JSON.parse(text) as OllamaGenerateResponse], read through
    [parsed.response || ''].
    - The text [null] parses, but reading a member of [null] throws inside
      the same [try] block: the outcome is [None], as for a SyntaxError.
    - A number, a string, a boolean or an array has no [response] member.
    - In an object, a [response] that is absent, [null], [false], zero or
      the empty string contributes the empty string.
    - Any other [response] is appended as its string, [toText]; when the
      coercion throws, the [try] block is left as for a SyntaxError.
    - The one case outside the model is a [response] whose string needs the
      printing of a floating-point number: the outcome given is [None]. *)
Definition asResponse (v : value) : option OllamaGenerateResponse :=
  match v with
  | Null => None
  | Object ms =>
      let isDone :=
        match member (txt "done") ms with
        | Some (Bool true) => true
        | _ => false
        end in
      match member (txt "response") ms with
      | None | Some Null | Some (Bool false) =>
          Some {| response := None; done := isDone |}
      | Some (Number literal) =>
          if isZero literal then Some {| response := None; done := isDone |}
          else match numberText literal with
               | Some text => Some {| response := Some text; done := isDone |}
               | None => None
               end
      | Some member =>
          match toText member with
          | Some text => Some {| response := Some text; done := isDone |}
          | None => None
          end
      end
  | _ => Some {| response := None; done := false |}
  end.

Definition parseResponse (text : jsstring) : option OllamaGenerateResponse :=
  match parse text with
  | Some v => asResponse v
  | None => None
  end.

End JSON.

Import JS.

(* ================================================================== *)
(** ** The host: notices, the HTTP endpoint, the Git extension *)
(* ================================================================== *)

Inductive Notice :=
| ErrorMessage (text : jsstring)
| WarningMessage (text : jsstring)
| InformationMessage (text : jsstring).

(** The body of an HTTP error response: an object (with its [error] member,
    when it has one), a text, or a stream, given with the text that draining
    it yields (the data read, or one of the placeholder texts of the
    draining code; the 500 ms race itself is outside the model). *)
Inductive ResponseData :=
| DataObject (error : option jsstring)
| DataText (text : jsstring)
| DataStream (drained : jsstring).

Record AxiosResponse := {
  status : N;
  statusText : jsstring;
  data : ResponseData }.

Inductive ErrorKind :=
| PlainError
| AxiosError (response : option AxiosResponse) (request : bool).

Record Error := {
  message : jsstring;
  kind : ErrorKind }.

(** What a [throw] or a rejection carries: an [Error], or any other value,
    given by its [String(...)]. *)
Inductive Thrown :=
| ThrownError (e : Error)
| ThrownOther (asString : jsstring).

(** A settled promise. *)
Inductive Settled (A : Type) :=
| Resolved (a : A)
| Rejected (e : Thrown).
Arguments Resolved {A} a.
Arguments Rejected {A} e.

(** The response body as the handlers see it: the data events in arrival
    order, closed by [end] or by [error]. *)
Inductive StreamEnding :=
| StreamEnd
| StreamError (e : Error).

Record Readable := {
  chunks : list Buffer;
  ending : StreamEnding }.

Record Request := {
  url : jsstring;
  bodyModel : jsstring;
  bodyPrompt : jsstring;
  bodyStream : bool }.

Inductive PostOutcome :=
| PostThrows (e : Thrown)
| PostResponse (body : Readable).

Inductive DiffOutcome :=
| DiffText (text : jsstring)
| DiffThrows (e : Thrown).

Record Repository := {
  diff : DiffOutcome;
  inputBox : option jsstring }.

Inductive GitExtension :=
| NotInstalled
| ActivationThrows (e : Thrown)
| WithoutAPI
| GitAPI (repositories : list Repository).

Record Configuration := {
  apiUrl : option jsstring;
  model : option jsstring;
  prompt : option jsstring;
  maxDiffLength : option Z }.

Record Host := {
  git : GitExtension;
  configuration : Configuration;
  server : Request -> PostOutcome;
  notices : list Notice;
  requests : list Request }.

(** *** The monad of the asynchronous functions

    An [async] function is a function of the host state that settles:
    [await] of a rejected promise outside a [try] rejects the caller. *)
Definition Async (A : Type) : Type := Host -> Settled A * Host.

Definition ret {A} (a : A) : Async A := fun h => (Resolved a, h).

Definition bind {A B} (m : Async A) (k : A -> Async B) : Async B :=
  fun h =>
    match m h with
    | (Resolved a, h') => k a h'
    | (Rejected e, h') => (Rejected e, h')
    end.

Definition reject {A} (e : Thrown) : Async A := fun h => (Rejected e, h).

Notation "x <- m ;; k" := (bind m (fun x => k))
  (at level 61, m at next level, right associativity).
Notation "m ;;; k" := (bind m (fun _ => k))
  (at level 61, right associativity).

(** The three changes of the host state. *)
Definition addNotice (n : Notice) (h : Host) : Host :=
  {| git := git h; configuration := configuration h; server := server h;
     notices := notices h ++ [n]; requests := requests h |}.

Definition addRequest (r : Request) (h : Host) : Host :=
  {| git := git h; configuration := configuration h; server := server h;
     notices := notices h; requests := requests h ++ [r] |}.

Definition writeInputBox (text : jsstring) (h : Host) : Host :=
  match git h with
  | GitAPI (repo :: others) =>
      {| git := GitAPI ({| diff := diff repo; inputBox := Some text |} :: others);
         configuration := configuration h; server := server h;
         notices := notices h; requests := requests h |}
  | _ => h
  end.

Definition notify (n : Notice) : Async unit :=
  fun h => (Resolved tt, addNotice n h).

Definition showErrorMessage (t : jsstring) := notify (ErrorMessage t).
Definition showWarningMessage (t : jsstring) := notify (WarningMessage t).
Definition showInformationMessage (t : jsstring) := notify (InformationMessage t).

(** [axios.post(apiUrl, body, { responseType: 'stream' })]: the request is
    issued and the endpoint answers. *)
Definition post (r : Request) : Async PostOutcome :=
  fun h => (Resolved (server h r), addRequest r h).

Definition getConfiguration : Async Configuration :=
  fun h => (Resolved (configuration h), h).

Definition getExtension : Async GitExtension :=
  fun h => (Resolved (git h), h).

(** [repo.inputBox.value = text] on the first repository, the object the
    command handler holds. *)
Definition setInputBoxValue (text : jsstring) : Async unit :=
  fun h => (Resolved tt, writeInputBox text h).

(** A string in a condition: [undefined] and the empty string are falsy. *)
Definition truthy (s : option jsstring) : option jsstring :=
  match s with
  | Some (c :: s') => Some (c :: s')
  | _ => None
  end.

(** [error instanceof Error ? error.message : String(error)] *)
Definition describe (e : Thrown) : jsstring :=
  match e with
  | ThrownError err => message err
  | ThrownOther text => text
  end.

(* ================================================================== *)
(** ** The cleanup of the generated message (lines 143 to 148) *)
(* ================================================================== *)

Definition doubleQuote : jsstring := [34%N].
Definition singleQuote : jsstring := [39%N].

Definition quoted (cleanedMessage : jsstring) : bool :=
  (startsWith cleanedMessage doubleQuote && endsWith cleanedMessage doubleQuote)
  || (startsWith cleanedMessage singleQuote && endsWith cleanedMessage singleQuote).

Definition stripQuotes (cleanedMessage : jsstring) : jsstring :=
  if quoted cleanedMessage
  then substring cleanedMessage 1 (Z.of_nat (length cleanedMessage) - 1)
  else cleanedMessage.

Definition cleanup (generatedMessage : jsstring) : jsstring :=
  let cleanedMessage := trim generatedMessage in
  let cleanedMessage := stripQuotes cleanedMessage in
  let cleanedMessage :=
    trim (replaceLeadingIgnoreCase cleanedMessage (txt "commit message:")) in
  trim (replaceLeadingIgnoreCase cleanedMessage (txt "message:")).

(* ================================================================== *)
(** ** The prompt (lines 97 and 98) *)
(* ================================================================== *)

Definition truncationMarker : jsstring := 10%N :: txt "... (diff truncated)".

Definition truncate (diffText : jsstring) (maxLength : Z) : jsstring :=
  if (Z.of_nat (length diffText) >? maxLength)%Z
  then substring diffText 0 maxLength ++ truncationMarker
  else diffText.

Definition renderPrompt (promptTemplate diffText : jsstring) (maxLength : Z) : jsstring :=
  let truncatedDiff := truncate diffText maxLength in
  replace promptTemplate (txt "{diff}") truncatedDiff.

(* ================================================================== *)
(** ** The extension *)
(* ================================================================== *)

Section Extension.

(** [JSON_parse line] is the outcome of
    [JSON.parse(line) as OllamaGenerateResponse] followed by the read of
    [parsed.response]: [None] when either throws.  The development is
    parametric in it; [JSON.parseResponse] is the instance used on
    concrete streams. *)
Variable JSON_parse : jsstring -> option OllamaGenerateResponse.

(** *** The stream accumulator (lines 110 to 156) *)

Record Accumulator := {
  fullResponse : jsstring;
  generatedMessage : jsstring }.

Definition start : Accumulator :=
  {| fullResponse := []; generatedMessage := [] |}.

(** [parsed.response || ''] *)
Definition fragment (parsed : OllamaGenerateResponse) : jsstring :=
  match response parsed with
  | Some text => text
  | None => []
  end.

(** [fullResponse.split('\n').filter(line => line.trim() !== '')] *)
Definition jsonResponses (full : jsstring) : list jsstring :=
  filter (fun line => negb (isEmpty (trim line))) (split 10 full).

(** The body of the [forEach], on the pair of [generatedMessage] and
    [processedResponse]. *)
Definition tryLine (acc : jsstring * jsstring) (jsonString : jsstring) :
  jsstring * jsstring :=
  match JSON_parse jsonString with
  | Some parsed =>
      (fst acc ++ fragment parsed, snd acc ++ jsonString ++ [10%N])
  | None => acc
  end.

(** [processedResponse] of a data event. *)
Definition processedResponse (st : Accumulator) (chunk : Buffer) : jsstring :=
  snd (fold_left tryLine
         (jsonResponses (fullResponse st ++ toString chunk))
         (generatedMessage st, [])).

(** [stream.on('data', ...)] *)
Definition onData (st : Accumulator) (chunk : Buffer) : Accumulator :=
  let full := fullResponse st ++ toString chunk in
  let result := fold_left tryLine (jsonResponses full) (generatedMessage st, []) in
  {| fullResponse := substringFrom full (Z.of_nat (length (snd result)));
     generatedMessage := fst result |}.

Definition feed (st : Accumulator) (data : list Buffer) : Accumulator :=
  fold_left onData data st.

(** The first half of [stream.on('end', ...)]: the final parse of what is
    left in the buffer; a failure is logged to the console only. *)
Definition finalParse (st : Accumulator) : jsstring :=
  if isEmpty (trim (fullResponse st)) then generatedMessage st
  else match JSON_parse (fullResponse st) with
       | Some parsed => generatedMessage st ++ fragment parsed
       | None => generatedMessage st
       end.

(** The second half: cleanup, and the settlement of the promise. *)
Definition settle (accumulated : jsstring) : Async (option jsstring) :=
  let cleanedMessage := cleanup accumulated in
  if isEmpty cleanedMessage
  then showWarningMessage (txt "Ollama returned an empty message.") ;;; ret None
  else ret (Some cleanedMessage).

Definition onEnd (st : Accumulator) : Async (option jsstring) :=
  settle (finalParse st).

(** [String(error.response.data)] in the template of the error handler. *)
Definition dataToString (d : ResponseData) : jsstring :=
  match d with
  | DataText text => text
  | DataObject _ | DataStream _ => txt "[object Object]"
  end.

(** The text of the notice of [stream.on('error', ...)]. *)
Definition streamFailure (apiUrl : jsstring) (error : Error) : jsstring :=
  let errorMessage := txt "Error streaming from Ollama: " ++ message error in
  match kind error with
  | AxiosError (Some r) _ =>
      errorMessage ++ 10%N :: txt "Ollama Response: " ++ dataToString (data r)
  | _ =>
      if includes (message error) (txt "ECONNREFUSED")
      then txt "Connection refused. Is Ollama running at " ++ apiUrl ++ txt "?"
      else errorMessage
  end.

(** [stream.on('error', ...)]: the notice, then [reject(error)]. *)
Definition onError (apiUrl : jsstring) (error : Error) : Async (option jsstring) :=
  showErrorMessage (streamFailure apiUrl error) ;;; reject (ThrownError error).

(** The promise built around the stream: the data events in order, then
    the end or the error event. *)
Definition consume (apiUrl : jsstring) (stream : Readable) : Async (option jsstring) :=
  let st := feed start (chunks stream) in
  match ending stream with
  | StreamEnd => onEnd st
  | StreamError error => onError apiUrl error
  end.

(** *** The [catch] block of the request (lines 171 to 202) *)

(** [errorDetails?.error || errorDetails || error.response.statusText] *)
Definition errorDetails (r : AxiosResponse) : jsstring :=
  match data r with
  | DataObject (Some (c :: text)) => c :: text
  | DataObject _ => txt "[object Object]"
  | DataText (c :: text) | DataStream (c :: text) => c :: text
  | DataText [] | DataStream [] => statusText r
  end.

Definition requestFailure (apiUrl : jsstring) (error : Thrown) : jsstring :=
  match error with
  | ThrownError e =>
      match kind e with
      | AxiosError (Some r) _ =>
          txt "Ollama API Error (" ++ numberToString (status r) ++ txt "): "
          ++ errorDetails r
      | AxiosError None true =>
          txt "Could not connect to Ollama API at " ++ apiUrl ++ txt ". Is it running?"
      | AxiosError None false => txt "Axios error: " ++ message e
      | PlainError => txt "Error: " ++ message e
      end
  | ThrownOther _ => txt "Failed to generate commit message."
  end.

(** *** [generateCommitMessage] (lines 85 to 203) *)

Definition missingConfiguration : jsstring :=
  txt "Ollama Commit configuration is missing (API URL, Model, or Prompt). Please check settings.".

Definition generateCommitMessage (diffText : jsstring) : Async (option jsstring) :=
  config <- getConfiguration ;;
  let maxLength := match maxDiffLength config with Some n => n | None => 4000%Z end in
  match truthy (apiUrl config), truthy (model config), truthy (prompt config) with
  | Some apiUrl, Some model, Some promptTemplate =>
      let finalPrompt := renderPrompt promptTemplate diffText maxLength in
      outcome <- post {| url := apiUrl; bodyModel := model;
                         bodyPrompt := finalPrompt; bodyStream := true |} ;;
      match outcome with
      | PostResponse stream => consume apiUrl stream
      | PostThrows error =>
          showErrorMessage (requestFailure apiUrl error) ;;; ret None
      end
  | _, _, _ => showErrorMessage missingConfiguration ;;; ret None
  end.

(** *** [getGitAPI] and [getStagedDiff] (lines 26 to 80) *)

Definition getGitAPI : Async (option (list Repository)) :=
  extension <- getExtension ;;
  match extension with
  | NotInstalled =>
      showErrorMessage (txt "Git extension is not available.") ;;; ret None
  | WithoutAPI =>
      showErrorMessage (txt "Unable to get Git API.") ;;; ret None
  | ActivationThrows error =>
      showErrorMessage (txt "Error getting Git API: " ++ describe error) ;;; ret None
  | GitAPI repositories => ret (Some repositories)
  end.

Definition getStagedDiff (gitAPI : list Repository) : Async (option jsstring) :=
  match gitAPI with
  | [] => showInformationMessage (txt "No Git repository found.") ;;; ret None
  | repo :: _ =>
      match diff repo with
      | DiffText [] =>
          showInformationMessage (txt "No staged changes found.") ;;; ret None
      | DiffText (c :: text) => ret (Some (c :: text))
      | DiffThrows error =>
          showErrorMessage (txt "Error getting git diff: " ++ describe error) ;;; ret None
      end
  end.

(** *** The command handler (lines 210 to 253) *)

(** Step 3 of the handler: the dispatch on the result of the generation. *)
Definition populate (repo : Repository) (generatedMessage : option jsstring) :
  Async unit :=
  match truthy generatedMessage, inputBox repo with
  | Some text, Some _ =>
      setInputBoxValue text ;;;
      showInformationMessage (txt "Ollama commit message generated.")
  | _, _ =>
      match generatedMessage with
      | None => ret tt
      | Some _ => showWarningMessage (txt "Could not find Git commit input box.")
      end
  end.

(** The handler of [ollama-commit.generate].  [withProgress] returns the
    promise of its task, and the reports of progress change nothing that
    is modelled. *)
Definition commandHandler : Async unit :=
  gitAPI <- getGitAPI ;;
  match gitAPI with
  | None => ret tt
  | Some [] =>
      showInformationMessage (txt "No Git repository found in the workspace.")
  | Some (repo :: others) =>
      diffText <- getStagedDiff (repo :: others) ;;
      match diffText with
      | None => ret tt
      | Some diffText =>
          generatedMessage <- generateCommitMessage diffText ;;
          populate repo generatedMessage
      end
  end.

End Extension.


(* ================================================================== *)
(** ** Definitions the statements use *)
(* ================================================================== *)

Definition idle (g : GitExtension) (c : Configuration) (s : Request -> PostOutcome) : Host :=
  {| git := g; configuration := c; server := s; notices := []; requests := [] |}.

(** A host for the examples: one repository with a staged diff and an input
    box, a complete configuration, and an endpoint with a fixed answer. *)
Definition exampleConfiguration : Configuration :=
  {| apiUrl := Some (txt "http://localhost:11434/api/generate");
     model := Some (txt "llama3");
     prompt := Some (txt "Write a commit message: {diff}");
     maxDiffLength := None |}.

Definition exampleRepository : Repository :=
  {| diff := DiffText (txt "+ a line"); inputBox := Some [] |}.

Definition exampleHost (answer : PostOutcome) : Host :=
  idle (GitAPI [exampleRepository]) exampleConfiguration (fun _ => answer).

Definition exampleRequest : Request :=
  {| url := txt "http://localhost:11434/api/generate";
     bodyModel := txt "llama3";
     bodyPrompt := txt "Write a commit message: + a line";
     bodyStream := true |}.

(** The text accumulated from a sequence of data events and the end event,
    before the cleanup. *)
Definition accumulated (JSON_parse : jsstring -> option OllamaGenerateResponse)
  (data : list Buffer) : jsstring :=
  finalParse JSON_parse (feed JSON_parse start data).

(** The fragments of the lines that parse, in order. *)
Definition fragments (JSON_parse : jsstring -> option OllamaGenerateResponse)
  (lines : list jsstring) : jsstring :=
  flat_map (fun line => match JSON_parse line with
                        | Some parsed => fragment parsed
                        | None => []
                        end) lines.

(** What the lines that parse add to [processedResponse]. *)
Definition processed (JSON_parse : jsstring -> option OllamaGenerateResponse)
  (lines : list jsstring) : jsstring :=
  flat_map (fun line => match JSON_parse line with
                        | Some _ => line ++ [10%N]
                        | None => []
                        end) lines.

Definition notBlank (line : jsstring) : bool := negb (isEmpty (trim line)).

(** The last candidate line of a buffer: what follows its final newline. *)
Definition lastCandidate (full : jsstring) : jsstring := last (split 10 full) [].

(** The candidate lines before the last one. *)
Definition earlierLines (full : jsstring) : list jsstring :=
  filter notBlank (removelast (split 10 full)).

(** The reading of the last line as always retained: it stays at the end of
    the pending buffer and the event appends the fragments of the earlier
    lines only. *)
Definition lastLineRetained (JSON_parse : jsstring -> option OllamaGenerateResponse)
  (st : Accumulator) (chunk : Buffer) : Prop :=
  let full := fullResponse st ++ toString chunk in
  (exists consumed,
      fullResponse (onData JSON_parse st chunk) = consumed ++ lastCandidate full)
  /\ generatedMessage (onData JSON_parse st chunk)
     = generatedMessage st ++ fragments JSON_parse (earlierLines full).

(** The accounting of the conservation invariant, in code units of the
    decoded text: what was received, and what the data events counted as
    processed. *)
Fixpoint received (data : list Buffer) : nat :=
  match data with
  | [] => 0
  | chunk :: data' => length (toString chunk) + received data'
  end.

Fixpoint consumed (JSON_parse : jsstring -> option OllamaGenerateResponse)
  (st : Accumulator) (data : list Buffer) : nat :=
  match data with
  | [] => 0
  | chunk :: data' =>
      length (processedResponse JSON_parse st chunk)
      + consumed JSON_parse (onData JSON_parse st chunk) data'
  end.

Definition conserved (JSON_parse : jsstring -> option OllamaGenerateResponse)
  (data : list Buffer) : Prop :=
  received data
  = consumed JSON_parse start data
    + length (fullResponse (feed JSON_parse start data)).

(** The text of a stream of records: each record closed by a newline. *)
Definition streamText (records : list jsstring) : jsstring :=
  concat (map (fun r => r ++ [10%N]) records).

(** The length of the first record, when there is one. *)
Definition room (records : list jsstring) : nat :=
  match records with
  | [] => 0
  | r :: _ => length r
  end.

(** A record of a well-formed stream: one line, not blank, that parses, and
    of which no shorter beginning parses (a record with a blank tail, which
    [JSON.parse] accepts, is excluded by this). *)
Definition wellFormedRecord (JSON_parse : jsstring -> option OllamaGenerateResponse)
  (r : jsstring) : Prop :=
  ~ In 10%N r
  /\ notBlank r = true
  /\ (exists parsed, JSON_parse r = Some parsed)
  /\ (forall t rest, r = t ++ rest -> rest <> [] -> notBlank t = true ->
      JSON_parse t = None).

(** The same, as a test: the beginnings of a record are finitely many. *)
Definition wellFormedRecordb (JSON_parse : jsstring -> option OllamaGenerateResponse)
  (r : jsstring) : bool :=
  forallb (fun c => negb (c =? 10)%N) r
  && notBlank r
  && (match JSON_parse r with Some _ => true | None => false end)
  && forallb (fun n => match JSON_parse (firstn n r) with
                       | Some _ => negb (notBlank (firstn n r))
                       | None => true
                       end) (seq 0 (length r)).

(** A parser that differs from [JSON_parse] in the [done] flags only. *)
Definition withDone (flag : OllamaGenerateResponse -> bool)
  (JSON_parse : jsstring -> option OllamaGenerateResponse)
  (line : jsstring) : option OllamaGenerateResponse :=
  match JSON_parse line with
  | Some parsed => Some {| response := response parsed; done := flag parsed |}
  | None => None
  end.

(** A required setting that is absent: [undefined], or the empty string,
    which the presence check treats alike. *)
Definition absent (setting : option jsstring) : Prop :=
  setting = None \/ setting = Some [].

(** A character that stands for itself inside a JSON string: no control
    character, no double quote, no backslash. *)
Definition plain (c : N) : bool :=
  ((32 <=? c) && negb (c =? 34) && negb (c =? 92))%N.

(** The compact record that carries a fragment of plain characters, as the
    endpoint writes it: the object with the one member [response]. *)
Definition recordOf (fragmentText : jsstring) : jsstring :=
  txt "{`response`:`" ++ fragmentText ++ txt "`}".

(** [x] occurs in [s] as one contiguous piece. *)
Definition within (x s : jsstring) : Prop := exists a b, s = a ++ x ++ b.

(** The request that the generation sends for a diff, from the settings
    found present. *)
Definition requestFor (config : Configuration)
  (address name template diffText : jsstring) : Request :=
  {| url := address; bodyModel := name;
     bodyPrompt :=
       renderPrompt template diffText
         match maxDiffLength config with
         | Some n => n
         | None => 4000%Z
         end;
     bodyStream := true |}.




(** *** The cleanup in the words of the specification *)

Module Spec.

Definition isQuote (c : N) : bool := ((c =? 34) || (c =? 39))%N.

(** The text inside, when the string is wrapped in a matching pair of
    straight quotes: a first and a last character, the same quote. *)
Definition wrapped (s : jsstring) : option jsstring :=
  match s with
  | [] => None
  | q :: rest =>
      match rev rest with
      | [] => None
      | q' :: inside => if isQuote q && (q' =? q)%N then Some (rev inside) else None
      end
  end.

Definition lowerCase (c : N) : N := if between 65 90 c then (c + 32)%N else c.

(** A leading label, compared without regard to case, is removed. *)
Definition stripLabel (label s : jsstring) : jsstring :=
  if JS.eqb (map lowerCase (firstn (length label) s)) label
  then skipn (length label) s
  else s.

(** The white space that trimming removes: the WhiteSpace and
    LineTerminator characters of ECMAScript, one by one. *)
Definition whiteSpace : list N :=
  [0x9; 0xA; 0xB; 0xC; 0xD; 0x20; 0xA0; 0x1680;
   0x2000; 0x2001; 0x2002; 0x2003; 0x2004; 0x2005; 0x2006; 0x2007;
   0x2008; 0x2009; 0x200A; 0x2028; 0x2029; 0x202F; 0x205F; 0x3000;
   0xFEFF]%N.

Definition isSpace (c : N) : bool := existsb (N.eqb c) whiteSpace.

(** Leading white space is dropped up to the first other character. *)
Fixpoint dropLeading (s : jsstring) : jsstring :=
  match s with
  | [] => []
  | c :: s' => if isSpace c then dropLeading s' else s
  end.

(** Trailing white space is dropped back to the last other character. *)
Fixpoint dropTrailing (s : jsstring) : jsstring :=
  match s with
  | [] => []
  | c :: s' =>
      match dropTrailing s' with
      | [] => if isSpace c then [] else [c]
      | kept => c :: kept
      end
  end.

Definition trimmed (s : jsstring) : jsstring := dropTrailing (dropLeading s).

Definition cleanup (accumulated : jsstring) : jsstring :=
  let text := trimmed accumulated in
  let unquoted := match wrapped text with
                  | Some inside => inside
                  | None => text
                  end in
  let unlabelled := trimmed (stripLabel (txt "commit message:") unquoted) in
  trimmed (stripLabel (txt "message:") unlabelled).

End Spec.

(* ================================================================== *)
(** ** Lemmas on the string functions *)
(* ================================================================== *)

Lemma eqb_true_iff (s t : jsstring) : JS.eqb s t = true <-> s = t.
Proof.
  unfold JS.eqb. destruct (list_eq_dec N.eq_dec s t); split; congruence.
Qed.

Lemma substringFrom_skipn (s : jsstring) (n : nat) :
  substringFrom s (Z.of_nat n) = skipn n s.
Proof.
  unfold substringFrom, substring, clamp.
  destruct (Nat.le_gt_cases n (length s)) as [Hle | Hgt].
  - replace (Z.min (Z.max 0 (Z.min (Z.of_nat n) (Z.of_nat (length s))))
               (Z.max 0 (Z.min (Z.of_nat (length s)) (Z.of_nat (length s)))))
      with (Z.of_nat n) by lia.
    replace (Z.max (Z.max 0 (Z.min (Z.of_nat n) (Z.of_nat (length s))))
               (Z.max 0 (Z.min (Z.of_nat (length s)) (Z.of_nat (length s)))))
      with (Z.of_nat (length s)) by lia.
    rewrite Nat2Z.id. apply firstn_all2. rewrite length_skipn. lia.
  - replace (Z.min (Z.max 0 (Z.min (Z.of_nat n) (Z.of_nat (length s))))
               (Z.max 0 (Z.min (Z.of_nat (length s)) (Z.of_nat (length s)))))
      with (Z.of_nat (length s)) by lia.
    replace (Z.max (Z.max 0 (Z.min (Z.of_nat n) (Z.of_nat (length s))))
               (Z.max 0 (Z.min (Z.of_nat (length s)) (Z.of_nat (length s)))))
      with (Z.of_nat (length s)) by lia.
    rewrite Z.sub_diag. simpl. symmetry. apply skipn_all2. lia.
Qed.

Lemma substring_inside (q q' : N) (inside : jsstring) :
  substring (q :: inside ++ [q']) 1
    (Z.of_nat (length (q :: inside ++ [q'])) - 1) = inside.
Proof.
  unfold substring, clamp. simpl length. rewrite length_app. simpl length.
  set (n := length inside).
  replace (Z.min (Z.max 0 (Z.min 1 (Z.of_nat (S (n + 1)))))
             (Z.max 0 (Z.min (Z.of_nat (S (n + 1)) - 1) (Z.of_nat (S (n + 1))))))
    with 1%Z by lia.
  replace (Z.max (Z.max 0 (Z.min 1 (Z.of_nat (S (n + 1)))))
             (Z.max 0 (Z.min (Z.of_nat (S (n + 1)) - 1) (Z.of_nat (S (n + 1))))))
    with (Z.of_nat (S n)) by lia.
  replace (Z.to_nat (Z.of_nat (S n) - 1)) with n by lia.
  change (Z.to_nat 1) with 1. simpl skipn.
  subst n. rewrite firstn_app, firstn_all, Nat.sub_diag.
  simpl. apply app_nil_r.
Qed.

Lemma stripQuotes_wrapped (s : jsstring) :
  stripQuotes s = match Spec.wrapped s with Some inside => inside | None => s end.
Proof.
  destruct s as [| q rest]; [reflexivity |].
  unfold Spec.wrapped. destruct (rev rest) as [| q' inside] eqn:Hrev.
  - apply (f_equal (@rev N)) in Hrev. rewrite rev_involutive in Hrev.
    simpl in Hrev. subst rest.
    unfold stripQuotes. destruct (quoted [q]); reflexivity.
  - apply (f_equal (@rev N)) in Hrev. rewrite rev_involutive in Hrev.
    simpl in Hrev. subst rest.
    assert (Hq : quoted (q :: rev inside ++ [q']) = Spec.isQuote q && (q' =? q)%N).
    { unfold quoted, endsWith, doubleQuote, singleQuote, Spec.isQuote.
      simpl rev. rewrite rev_app_distr. cbn -[N.eqb].
      destruct (N.eqb_spec 34 q), (N.eqb_spec 34 q'), (N.eqb_spec 39 q),
        (N.eqb_spec 39 q'), (N.eqb_spec q 34), (N.eqb_spec q 39),
        (N.eqb_spec q' q); simpl; try reflexivity; exfalso; lia. }
    unfold stripQuotes. rewrite Hq.
    destruct (Spec.isQuote q && (q' =? q)%N); [| reflexivity].
    apply substring_inside.
Qed.

Lemma canonicalize_lowerCase (p c : N) :
  between 65 90 p = false ->
  (canonicalize p =? canonicalize c)%N = true <-> Spec.lowerCase c = p.
Proof.
  unfold canonicalize, Spec.lowerCase, between. intros Hp.
  rewrite N.eqb_eq.
  destruct (N.leb_spec 65 p), (N.leb_spec p 90); try discriminate;
    destruct (N.leb_spec 97 p), (N.leb_spec p 122),
      (N.leb_spec 97 c), (N.leb_spec c 122),
      (N.leb_spec 65 c), (N.leb_spec c 90); simpl; lia.
Qed.

Lemma matchIgnoreCase_stripLabel (label : jsstring) :
  Forall (fun p => between 65 90 p = false) label ->
  forall s, replaceLeadingIgnoreCase s label = Spec.stripLabel label s.
Proof.
  intros Hlabel.
  assert (H : forall s,
             matchIgnoreCase label s
             = if JS.eqb (map Spec.lowerCase (firstn (length label) s)) label
               then Some (skipn (length label) s) else None).
  { induction Hlabel as [| p label Hp _ IH]; intros s.
    - reflexivity.
    - destruct s as [| c s]; [reflexivity |].
      simpl matchIgnoreCase. simpl length. simpl firstn. simpl map. simpl skipn.
      rewrite IH.
      destruct (N.eqb_spec (canonicalize p) (canonicalize c)) as [Heq | Hne].
      + apply N.eqb_eq, (canonicalize_lowerCase p c Hp) in Heq. rewrite Heq.
        destruct (JS.eqb (map Spec.lowerCase (firstn (length label) s)) label) eqn:E.
        * apply eqb_true_iff in E. rewrite E.
          replace (JS.eqb (p :: label) (p :: label)) with true; [reflexivity |].
          symmetry. now apply eqb_true_iff.
        * destruct (JS.eqb (p :: map Spec.lowerCase (firstn (length label) s))
                      (p :: label)) eqn:E'; [| reflexivity].
          apply eqb_true_iff in E'. injection E' as E'.
          apply eqb_true_iff in E'. congruence.
      + destruct (JS.eqb (Spec.lowerCase c :: map Spec.lowerCase (firstn (length label) s))
                    (p :: label)) eqn:E'; [| reflexivity].
        apply eqb_true_iff in E'. injection E' as E1 E2.
        apply (canonicalize_lowerCase p c Hp), N.eqb_eq in E1. contradiction. }
  intros s. unfold replaceLeadingIgnoreCase, Spec.stripLabel. rewrite H.
  destruct (JS.eqb (map Spec.lowerCase (firstn (length label) s)) label); reflexivity.
Qed.

(* ================================================================== *)
(** ** The cleanup *)
(* ================================================================== *)


(** No trim stands between the stripping of the quotes and the first label:
    a label behind a space inside the quotes is kept. *)
Example cleanup_label_behind_space :
  cleanup (txt "` Commit message: Add retry logic`") = txt "Commit message: Add retry logic".
Proof. reflexivity. Qed.

(** A lone quote character passes the test of [quoted], and
    [substring(1, 0)] swaps its bounds: the character stays. *)
Lemma stripQuotes_lone_quote (q : N) : stripQuotes [q] = [q].
Proof. unfold stripQuotes. destruct (quoted [q]); reflexivity. Qed.

(** C9, as stated, fails: the cleanup of a lone double quote is not the empty
    string, and the end of the stream resolves with it. *)
Lemma C9_lone_quote_not_emptied :
  trim (txt " ` ") = txt "`"
  /\ quoted (trim (txt " ` ")) = true
  /\ cleanup (txt " ` ") <> []
  /\ fst (settle (txt " ` ") (idle NotInstalled
            {| apiUrl := None; model := None; prompt := None; maxDiffLength := None |}
            (fun _ => PostThrows (ThrownOther []))))
     = Resolved (Some (txt "`")).
Proof. repeat split; try reflexivity. discriminate. Qed.

(** C9, amended.  When the trimmed accumulated text is a single straight
    quote, the test of the quote stripping succeeds, the stripping leaves the
    character in place, the cleaned message is that character, and the
    promise resolves with it: no warning, no empty result. *)
Theorem C9_lone_quote_is_returned (accumulatedText : jsstring) (q : N) (h : Host) :
  q = 34%N \/ q = 39%N ->
  trim accumulatedText = [q] ->
  quoted (trim accumulatedText) = true
  /\ stripQuotes (trim accumulatedText) = [q]
  /\ cleanup accumulatedText = [q]
  /\ settle accumulatedText h = (Resolved (Some [q]), h).
Proof.
  intros Hq Htrim.
  assert (Hclean : cleanup accumulatedText = [q]).
  { unfold cleanup. rewrite Htrim, stripQuotes_lone_quote.
    destruct Hq; subst q; reflexivity. }
  repeat split.
  - rewrite Htrim. destruct Hq; subst q; reflexivity.
  - rewrite Htrim. apply stripQuotes_lone_quote.
  - exact Hclean.
  - unfold settle. rewrite Hclean. reflexivity.
Qed.

Lemma C9_lone_quote_is_returned_witness :
  let h := idle NotInstalled
             {| apiUrl := None; model := None; prompt := None; maxDiffLength := None |}
             (fun _ => PostThrows (ThrownOther [])) in
  quoted (trim (txt " ' ")) = true
  /\ stripQuotes (trim (txt " ' ")) = [39%N]
  /\ cleanup (txt " ' ") = [39%N]
  /\ settle (txt " ' ") h = (Resolved (Some [39%N]), h).
Proof.
  intros h.
  apply (C9_lone_quote_is_returned (txt " ' ") 39%N h).
  - right. reflexivity.
  - reflexivity.
Defined.

(* ================================================================== *)
(** ** The data handler *)
(* ================================================================== *)

Lemma split_not_nil (sep : N) (s : jsstring) : split sep s <> [].
Proof.
  destruct s as [| c s]; simpl; [discriminate |].
  destruct (c =? sep)%N; [discriminate |].
  destruct (split sep s); discriminate.
Qed.

(** The lines of a text, each but the last closed by the separator, are the
    text. *)
Lemma split_join (sep : N) (s : jsstring) :
  concat (map (fun l => l ++ [sep]) (removelast (split sep s)))
  ++ last (split sep s) [] = s.
Proof.
  induction s as [| c s IH]; [reflexivity |].
  simpl split. destruct (N.eqb_spec c sep) as [-> | Hne].
  - pose proof (split_not_nil sep s) as Hnil.
    destruct (split sep s) as [| l ls] eqn:E; [contradiction |].
    change (removelast ([] :: l :: ls)) with ([] :: removelast (l :: ls)).
    change (last ([] :: l :: ls) []) with (last (l :: ls) (@nil N)).
    cbn [map concat app]. f_equal. exact IH.
  - pose proof (split_not_nil sep s) as Hnil.
    destruct (split sep s) as [| l ls] eqn:E; [contradiction |].
    destruct ls as [| l' ls].
    + cbn [removelast last map concat app] in *. f_equal. exact IH.
    + change (removelast ((c :: l) :: l' :: ls))
        with ((c :: l) :: removelast (l' :: ls)).
      change (last ((c :: l) :: l' :: ls) []) with (last (l' :: ls) (@nil N)).
      change (removelast (l :: l' :: ls)) with (l :: removelast (l' :: ls)) in IH.
      change (last (l :: l' :: ls) []) with (last (l' :: ls) (@nil N)) in IH.
      cbn [map concat] in *. rewrite <- !app_assoc in *.
      cbn [app]. f_equal. exact IH.
Qed.

Lemma skipn_within_prefix (n : nat) (prefix rest : jsstring) :
  n <= length prefix -> skipn n (prefix ++ rest) = skipn n prefix ++ rest.
Proof.
  intros Hn. rewrite skipn_app. replace (n - length prefix) with 0 by lia.
  reflexivity.
Qed.

Section DataHandler.
Variable JSON_parse : jsstring -> option OllamaGenerateResponse.

Lemma fold_tryLine (lines : list jsstring) (message done : jsstring) :
  fold_left (tryLine JSON_parse) lines (message, done)
  = (message ++ fragments JSON_parse lines, done ++ processed JSON_parse lines).
Proof.
  revert message done.
  induction lines as [| line lines IH]; intros message done; simpl.
  - now rewrite !app_nil_r.
  - unfold tryLine at 2. destruct (JSON_parse line) as [parsed |]; simpl.
    + rewrite IH. now rewrite <- !app_assoc.
    + apply IH.
Qed.

(** The data handler in closed form: the fragments of the lines that
    parse are appended in order, and as many code units as those lines
    and their newlines count are cut from the front of the buffer. *)
Lemma onData_closed_form (st : Accumulator) (chunk : Buffer) :
  let full := fullResponse st ++ toString chunk in
  onData JSON_parse st chunk
  = {| fullResponse :=
         skipn (length (processed JSON_parse (jsonResponses full))) full;
       generatedMessage :=
         generatedMessage st ++ fragments JSON_parse (jsonResponses full) |}.
Proof.
  intros full. unfold onData. fold full.
  rewrite fold_tryLine. simpl fst. simpl snd.
  now rewrite substringFrom_skipn.
Qed.

Lemma jsonResponses_last (full : jsstring) :
  jsonResponses full
  = earlierLines full
    ++ (if notBlank (lastCandidate full) then [lastCandidate full] else []).
Proof.
  unfold jsonResponses, earlierLines, lastCandidate.
  rewrite (app_removelast_last (@nil N) (split_not_nil 10 full)) at 1.
  rewrite filter_app. reflexivity.
Qed.

Lemma processed_filter_length (keep : jsstring -> bool) (lines : list jsstring) :
  length (processed JSON_parse (filter keep lines))
  <= length (concat (map (fun l => l ++ [10%N]) lines)).
Proof.
  induction lines as [| line lines IH]; [apply le_n |].
  simpl. rewrite !length_app. simpl length.
  destruct (keep line); simpl; [| lia].
  destruct (JSON_parse line); rewrite ?length_app; simpl; lia.
Qed.

End DataHandler.

(** C3, as stated, fails: a chunk that ends with a complete record and no
    newline yet has that record as its last candidate line; the record is
    not retained in the pending buffer and its fragment is appended. *)
Lemma C3_last_line_consumed :
  lastCandidate (toString (bytes "{`response`:`Fix `}")) = txt "{`response`:`Fix `}"
  /\ onData JSON.parseResponse start (bytes "{`response`:`Fix `}")
     = {| fullResponse := []; generatedMessage := txt "Fix " |}
  /\ ~ lastLineRetained JSON.parseResponse start (bytes "{`response`:`Fix `}").
Proof.
  split; [reflexivity |]. split; [reflexivity |].
  intros [_ H]. vm_compute in H. discriminate.
Qed.

(** Lines that are not blank and parse are all candidates, and all of them
    with their newlines are counted as processed. *)
Lemma processed_all_lines
  (JSON_parse : jsstring -> option OllamaGenerateResponse) (lines : list jsstring) :
  Forall (fun l => notBlank l = true /\ JSON_parse l <> None) lines ->
  processed JSON_parse (filter notBlank lines)
  = concat (map (fun l => l ++ [10%N]) lines).
Proof.
  induction 1 as [| l lines [Hblank Hparse] _ IH]; [reflexivity |].
  simpl. rewrite Hblank. unfold processed in *. simpl.
  destruct (JSON_parse l); [| contradiction]. now rewrite IH.
Qed.

(** C3, amended.  In every data event the last candidate line is treated as
    every other line.  When it is blank or does not parse, it is retained at
    the end of the pending buffer and the event appends the fragments of the
    earlier lines only.  When it parses, its fragment is appended in the
    same event, after those of the earlier lines; and when the earlier lines
    were consumed too (none of them blank, each of them parsing), the
    pending buffer is left empty. *)
Theorem C3_last_line_retained_unless_parsed
  (JSON_parse : jsstring -> option OllamaGenerateResponse)
  (st : Accumulator) (chunk : Buffer) :
  let full := fullResponse st ++ toString chunk in
  let line := lastCandidate full in
  let st' := onData JSON_parse st chunk in
  match (if notBlank line then JSON_parse line else None) with
  | None =>
      (exists consumed, fullResponse st' = consumed ++ line)
      /\ generatedMessage st'
         = generatedMessage st ++ fragments JSON_parse (earlierLines full)
  | Some parsed =>
      generatedMessage st'
      = generatedMessage st ++ fragments JSON_parse (earlierLines full)
        ++ fragment parsed
      /\ (Forall (fun l => notBlank l = true /\ JSON_parse l <> None)
            (removelast (split 10 full)) ->
          fullResponse st' = [])
  end.
Proof.
  intros full line st'. subst st'. rewrite onData_closed_form. fold full.
  rewrite jsonResponses_last. fold line. simpl fullResponse. simpl generatedMessage.
  unfold fragments, processed. rewrite !flat_map_app.
  fold (fragments JSON_parse (earlierLines full)).
  fold (processed JSON_parse (earlierLines full)).
  assert (Hjoin : full = concat (map (fun l => l ++ [10%N]) (removelast (split 10 full)))
                         ++ line)
    by (symmetry; apply split_join).
  pose proof (processed_filter_length JSON_parse notBlank (removelast (split 10 full)))
    as Hlen.
  fold (earlierLines full) in Hlen.
  pose proof (processed_all_lines JSON_parse (removelast (split 10 full))) as Hall.
  fold (earlierLines full) in Hall.
  set (prefix := concat (map (fun l => l ++ [10%N]) (removelast (split 10 full)))) in *.
  assert (Hretained : forall n,
             n = length (processed JSON_parse (earlierLines full)) ->
             exists consumed, skipn n full = consumed ++ line).
  { intros n Hn. exists (skipn n prefix).
    rewrite <- skipn_within_prefix by lia. now rewrite <- Hjoin. }
  destruct (notBlank line) eqn:Hblank.
  - destruct (JSON_parse line) as [parsed |] eqn:Hparse; simpl flat_map;
      rewrite ?Hparse, ?app_nil_r.
    + split; [reflexivity |].
      intros Hearlier. rewrite (Hall Hearlier).
      apply skipn_all2. rewrite Hjoin at 1. rewrite !length_app. simpl. lia.
    + split; [now apply Hretained | reflexivity].
  - simpl flat_map. rewrite !app_nil_r.
    split; [now apply Hretained | reflexivity].
Qed.

Lemma C3_last_line_retained_unless_parsed_witness :
  let chunk := line "{`response`:`Fix `}" ++ bytes "{`response`:`bug`}" in
  generatedMessage (onData JSON.parseResponse start chunk) = txt "Fix bug"
  /\ fullResponse (onData JSON.parseResponse start chunk) = [].
Proof.
  intros chunk.
  pose proof (C3_last_line_retained_unless_parsed JSON.parseResponse start chunk)
    as [Hmessage Hbuffer].
  split; [exact Hmessage |].
  apply Hbuffer.
  apply Forall_cons; [| apply Forall_nil].
  split; [reflexivity | discriminate].
Defined.

(* ================================================================== *)
(** ** The [done] flag *)
(* ================================================================== *)

Section DoneFlag.
Variable JSON_parse : jsstring -> option OllamaGenerateResponse.
Variable flag : OllamaGenerateResponse -> bool.

Lemma fragments_withDone (lines : list jsstring) :
  fragments (withDone flag JSON_parse) lines = fragments JSON_parse lines.
Proof.
  unfold fragments, withDone. apply flat_map_ext. intros l.
  destruct (JSON_parse l); reflexivity.
Qed.

Lemma processed_withDone (lines : list jsstring) :
  processed (withDone flag JSON_parse) lines = processed JSON_parse lines.
Proof.
  unfold processed, withDone. apply flat_map_ext. intros l.
  destruct (JSON_parse l); reflexivity.
Qed.

Lemma onData_withDone (st : Accumulator) (chunk : Buffer) :
  onData (withDone flag JSON_parse) st chunk = onData JSON_parse st chunk.
Proof.
  rewrite !onData_closed_form.
  now rewrite fragments_withDone, processed_withDone.
Qed.

Lemma feed_withDone (data : list Buffer) (st : Accumulator) :
  feed (withDone flag JSON_parse) st data = feed JSON_parse st data.
Proof.
  revert st. induction data as [| chunk data IH]; intros st; [reflexivity |].
  unfold feed in *. simpl. rewrite onData_withDone. apply IH.
Qed.

Lemma finalParse_withDone (st : Accumulator) :
  finalParse (withDone flag JSON_parse) st = finalParse JSON_parse st.
Proof.
  unfold finalParse, withDone.
  destruct (isEmpty (trim (fullResponse st))); [reflexivity |].
  destruct (JSON_parse (fullResponse st)); reflexivity.
Qed.

End DoneFlag.

(** C10. The accumulator does not read the [done] flag: rewriting the flags
    of the parsed records in any way changes neither the state after any
    sequence of data events nor the final parse of the end event.  Every data
    event appends the fragments of all the lines that parse, in the order of
    the lines; a record that follows one with [done] set to true is
    appended like any other, and only the end event closes the text. *)
Theorem C10_done_flag_never_read
  (JSON_parse : jsstring -> option OllamaGenerateResponse)
  (flag : OllamaGenerateResponse -> bool) :
  (forall st data,
      feed (withDone flag JSON_parse) st data = feed JSON_parse st data)
  /\ (forall data,
         accumulated (withDone flag JSON_parse) data = accumulated JSON_parse data)
  /\ (forall st chunk,
         generatedMessage (onData JSON_parse st chunk)
         = generatedMessage st
           ++ fragments JSON_parse (jsonResponses (fullResponse st ++ toString chunk)))
  /\ accumulated JSON.parseResponse
       [line "{`response`:`Fix `,`done`:true}";
        line "{`response`:`bug`,`done`:false}" ++ line "{`response`:` in parser`}"]
     = txt "Fix bug in parser".
Proof.
  split; [| split; [| split]].
  - intros st data. apply feed_withDone.
  - intros data. unfold accumulated.
    now rewrite feed_withDone, finalParse_withDone.
  - intros st chunk. now rewrite onData_closed_form.
  - reflexivity.
Qed.

(* ================================================================== *)
(** ** Well-formed streams *)
(* ================================================================== *)

Lemma split_no_separator (sep : N) (t : jsstring) :
  ~ In sep t -> split sep t = [t].
Proof.
  induction t as [| c t IH]; intros Hno; [reflexivity |].
  simpl. destruct (N.eqb_spec c sep) as [-> | _].
  - exfalso. apply Hno. now left.
  - rewrite IH; [reflexivity |]. intros Hin. apply Hno. now right.
Qed.

Lemma split_first_line (sep : N) (r s : jsstring) :
  ~ In sep r -> split sep (r ++ sep :: s) = r :: split sep s.
Proof.
  induction r as [| c r IH]; intros Hno.
  - simpl. now rewrite N.eqb_refl.
  - simpl. destruct (N.eqb_spec c sep) as [-> | _].
    + exfalso. apply Hno. now left.
    + rewrite IH; [reflexivity |]. intros Hin. apply Hno. now right.
Qed.

Lemma split_streamText (records : list jsstring) (t : jsstring) :
  Forall (fun r => ~ In 10%N r) records -> ~ In 10%N t ->
  split 10 (streamText records ++ t) = records ++ [t].
Proof.
  intros Hrecords Ht. induction Hrecords as [| r records Hr _ IH].
  - simpl. now apply split_no_separator.
  - unfold streamText in *. simpl. rewrite <- !app_assoc. simpl.
    rewrite split_first_line by assumption. now rewrite IH.
Qed.

Lemma streamText_app (mid todo : list jsstring) :
  streamText (mid ++ todo) = streamText mid ++ streamText todo.
Proof. unfold streamText. now rewrite map_app, concat_app. Qed.

Lemma streamText_ends_with_newline (records : list jsstring) :
  streamText records = [] \/ exists s, streamText records = s ++ [10%N].
Proof.
  induction records as [| r records IH]; [now left |].
  right. unfold streamText in *. simpl.
  destruct IH as [-> | [s ->]].
  - exists r. now rewrite app_nil_r.
  - exists ((r ++ [10%N]) ++ s). now rewrite <- !app_assoc.
Qed.

Lemma skipn_after_newline (s t : jsstring) :
  s = [] \/ (exists s', s = s' ++ [10%N]) ->
  skipn (length s) (10%N :: s ++ t) = 10%N :: t.
Proof.
  intros [-> | [s' ->]]; [reflexivity |].
  rewrite length_app. simpl length.
  replace (10%N :: (s' ++ [10%N]) ++ t) with ((10%N :: s') ++ 10%N :: t)
    by (simpl; now rewrite <- app_assoc).
  rewrite skipn_app. simpl length.
  replace (length s' + 1 - S (length s')) with 0 by lia.
  rewrite skipn_all2 by (simpl; lia). reflexivity.
Qed.

Lemma skipn_stream (j t : jsstring) (mid : list jsstring) :
  j = [] \/ j = [10%N] ->
  skipn (length (streamText mid)) (j ++ streamText mid ++ t) = j ++ t.
Proof.
  intros [-> | ->].
  - simpl. rewrite skipn_app, skipn_all, Nat.sub_diag. reflexivity.
  - exact (skipn_after_newline (streamText mid) t (streamText_ends_with_newline mid)).
Qed.

(** A beginning of a stream text: some records, closed, and the beginning
    of the next one. *)
Lemma streamText_prefix (records : list jsstring) :
  Forall (fun r => ~ In 10%N r) records ->
  forall y rest, y ++ rest = streamText records ->
  exists mid todo t,
    records = mid ++ todo /\ y = streamText mid ++ t
    /\ t ++ rest = streamText todo /\ ~ In 10%N t /\ length t <= room todo.
Proof.
  intros Hrecords. induction Hrecords as [| r records Hr _ IH]; intros y rest Heq.
  - apply app_eq_nil in Heq as [-> ->]. exists [], [], []. repeat split; auto.
  - change (streamText (r :: records)) with ((r ++ [10%N]) ++ streamText records) in Heq.
    apply app_eq_app in Heq as [l [[Hy Hrest] | [Hr' Hrest]]].
    + destruct (IH l rest (eq_sym Hrest)) as (mid & todo & t & -> & -> & Ht & Hno & Hlen).
      exists (r :: mid), todo, t. repeat split; auto.
      rewrite Hy. change (streamText (r :: mid)) with ((r ++ [10%N]) ++ streamText mid).
      now rewrite <- !app_assoc.
    + destruct l as [| x l' _] using rev_ind.
      * rewrite app_nil_r in Hr'. subst y. simpl in Hrest. subst rest.
        exists [r], records, []. repeat split; auto.
        -- unfold streamText. simpl. now rewrite !app_nil_r.
        -- simpl. lia.
      * rewrite app_assoc in Hr'. apply app_inj_tail in Hr' as [-> <-].
        exists [], ((y ++ l') :: records), y. repeat split; auto.
        -- rewrite Hrest.
           change (streamText ((y ++ l') :: records))
             with (((y ++ l') ++ [10%N]) ++ streamText records).
           now rewrite <- !app_assoc.
        -- intros Hin. apply Hr. apply in_or_app. now left.
        -- simpl. rewrite length_app. lia.
Qed.

Section WellFormed.
Variable JSON_parse : jsstring -> option OllamaGenerateResponse.

Lemma wellFormed_no_newline (records : list jsstring) :
  Forall (wellFormedRecord JSON_parse) records ->
  Forall (fun r => ~ In 10%N r) records.
Proof. apply Forall_impl. now intros r [H _]. Qed.

Lemma filter_wellFormed (records : list jsstring) :
  Forall (wellFormedRecord JSON_parse) records ->
  filter notBlank records = records.
Proof.
  induction 1 as [| r records (_ & Hr & _) _ IH]; [reflexivity |].
  simpl. now rewrite Hr, IH.
Qed.

Lemma processed_wellFormed (records : list jsstring) :
  Forall (wellFormedRecord JSON_parse) records ->
  processed JSON_parse records = streamText records.
Proof.
  induction 1 as [| r records (_ & _ & [parsed Hr] & _) _ IH]; [reflexivity |].
  unfold processed, streamText in *. simpl. now rewrite Hr, IH.
Qed.

(** The candidate lines of a buffer that holds closed records and the
    beginning of one more, behind at most one stray newline. *)
Lemma jsonResponses_stream (j t : jsstring) (mid : list jsstring) :
  j = [] \/ j = [10%N] ->
  Forall (wellFormedRecord JSON_parse) mid -> ~ In 10%N t ->
  jsonResponses (j ++ streamText mid ++ t)
  = mid ++ (if notBlank t then [t] else []).
Proof.
  intros Hj Hmid Ht.
  assert (H : filter notBlank (split 10 (streamText mid ++ t))
              = mid ++ (if notBlank t then [t] else [])).
  { rewrite split_streamText by (auto using wellFormed_no_newline).
    rewrite filter_app, filter_wellFormed by assumption. reflexivity. }
  destruct Hj as [-> | ->]; [exact H |].
  unfold jsonResponses. change ([10%N] ++ streamText mid ++ t)
    with (10%N :: (streamText mid ++ t)).
  simpl split. exact H.
Qed.

(** A beginning of a record that parses is the record. *)
Lemma parsed_prefix_is_record (t rest : jsstring) (todo : list jsstring)
  (parsed : OllamaGenerateResponse) :
  Forall (wellFormedRecord JSON_parse) todo ->
  t ++ rest = streamText todo -> length t <= room todo ->
  notBlank t = true -> JSON_parse t = Some parsed ->
  exists todo', todo = t :: todo' /\ rest = 10%N :: streamText todo'.
Proof.
  intros Htodo Heq Hlen Hblank Hparse.
  destruct todo as [| r todo'].
  - simpl in Hlen. destruct t; [discriminate | simpl in Hlen; lia].
  - exists todo'. inversion Htodo as [| ? ? (_ & _ & _ & Hprefix) _]; subst.
    change (streamText (r :: todo')) with ((r ++ [10%N]) ++ streamText todo') in Heq.
    rewrite <- app_assoc in Heq.
    apply app_eq_app in Heq as [l [[Ht Hrest] | [Hr Hrest]]].
    + simpl in Hlen. assert (l = []) as ->.
      { apply (f_equal (@length N)) in Ht. rewrite length_app in Ht.
        destruct l; [reflexivity | simpl in Ht; lia]. }
      rewrite app_nil_r in Ht. subst t. simpl in Hrest. now subst rest.
    + destruct l as [| x l].
      * rewrite app_nil_r in Hr. subst t. simpl in Hrest. now subst rest.
      * rewrite (Hprefix t (x :: l) Hr) in Hparse; [discriminate | discriminate | assumption].
Qed.

(** The invariant of the data events on a well-formed stream: what is in
    the buffer and what is still to come are, behind at most one stray
    newline, the records not yet appended; the buffer holds no closed
    record.  Then the end of the stream finds every fragment appended. *)
Lemma feed_wellFormed (data : list Buffer) :
  forall (st : Accumulator) (records : list jsstring) (j : jsstring),
    j = [] \/ j = [10%N] ->
    Forall (wellFormedRecord JSON_parse) records ->
    fullResponse st ++ concat (map toString data) = j ++ streamText records ->
    length (fullResponse st) <= length j + room records ->
    finalParse JSON_parse (feed JSON_parse st data)
    = generatedMessage st ++ fragments JSON_parse records.
Proof.
  induction data as [| chunk data IH]; intros st records j Hj Hrecords Heq Hlen.
  - simpl in Heq. rewrite app_nil_r in Heq. simpl feed.
    assert (records = []) as ->.
    { destruct records as [| r records]; [reflexivity |].
      apply (f_equal (@length N)) in Heq. rewrite length_app in Heq.
      change (streamText (r :: records)) with ((r ++ [10%N]) ++ streamText records) in Heq.
      rewrite !length_app in Heq. simpl in Heq, Hlen. lia. }
    simpl in Heq. rewrite app_nil_r in Heq. unfold finalParse. rewrite Heq.
    simpl. rewrite app_nil_r. destruct Hj as [-> | ->]; reflexivity.
  - change (feed JSON_parse st (chunk :: data))
      with (feed JSON_parse (onData JSON_parse st chunk) data).
    rewrite onData_closed_form. simpl in Heq. rewrite app_assoc in Heq.
    set (x := fullResponse st ++ toString chunk) in *.
    set (rest := concat (map toString data)) in *.
    assert (Hx : (j = [10%N] /\ x = []) \/ exists y, x = j ++ y /\ y ++ rest = streamText records).
    { destruct Hj as [-> | ->].
      - right. exists x. split; [reflexivity | exact Heq].
      - destruct x as [| c x']; [left; now split | right].
        simpl in Heq. injection Heq as -> Heq. exists x'. now split. }
    destruct Hx as [[-> Hx] | (y & Hx & Hy)].
    + rewrite Hx in *. simpl in Heq.
      rewrite (IH _ records [10%N]); simpl; auto; try lia.
      now rewrite app_nil_r.
    + destruct (streamText_prefix records (wellFormed_no_newline records Hrecords) y rest Hy)
        as (mid & todo & t & -> & -> & Ht & Hno & Hroom).
      apply Forall_app in Hrecords as [Hmid Htodo].
      rewrite Hx, jsonResponses_stream by assumption.
      unfold fragments, processed. rewrite !flat_map_app.
      fold (fragments JSON_parse mid). fold (processed JSON_parse mid).
      rewrite processed_wellFormed by assumption.
      fold (fragments JSON_parse todo).
      destruct (notBlank t) eqn:Hblank;
        [destruct (JSON_parse t) as [parsed |] eqn:Hparse |].
      * destruct (parsed_prefix_is_record t rest todo parsed Htodo Ht Hroom Hblank Hparse)
          as (todo' & -> & Hrest).
        inversion Htodo as [| ? ? _ Htodo']; subst.
        simpl flat_map. rewrite Hparse, !app_nil_r.
        rewrite skipn_all2
          by (rewrite !length_app; simpl;
              destruct Hj as [-> | ->]; simpl; lia).
        change (fragments JSON_parse (t :: todo'))
          with (match JSON_parse t with
                | Some p => fragment p
                | None => []
                end ++ fragments JSON_parse todo').
        rewrite Hparse.
        rewrite (IH _ todo' [10%N]); simpl; auto; try lia.
        now rewrite <- !app_assoc.
      * simpl flat_map. rewrite Hparse, !app_nil_r.
        rewrite skipn_stream by assumption.
        rewrite (IH _ todo j); simpl; auto.
        -- now rewrite <- !app_assoc.
        -- rewrite <- app_assoc. f_equal. exact Ht.
        -- rewrite length_app. lia.
      * simpl flat_map. rewrite !app_nil_r.
        rewrite skipn_stream by assumption.
        rewrite (IH _ todo j); simpl; auto.
        -- now rewrite <- !app_assoc.
        -- rewrite <- app_assoc. f_equal. exact Ht.
        -- rewrite length_app. lia.
Qed.

End WellFormed.

Lemma wellFormedRecordb_sound
  (JSON_parse : jsstring -> option OllamaGenerateResponse) (r : jsstring) :
  wellFormedRecordb JSON_parse r = true -> wellFormedRecord JSON_parse r.
Proof.
  unfold wellFormedRecordb. intros H.
  apply andb_prop in H as [H Hprefix]. apply andb_prop in H as [H Hparse].
  apply andb_prop in H as [Hline Hblank].
  repeat split.
  - intros Hin. rewrite forallb_forall in Hline. specialize (Hline _ Hin).
    discriminate.
  - exact Hblank.
  - destruct (JSON_parse r) as [parsed |]; [now exists parsed | discriminate].
  - intros t rest -> Hrest Ht. rewrite forallb_forall in Hprefix.
    specialize (Hprefix (length t)).
    rewrite firstn_app, firstn_all, Nat.sub_diag, firstn_0, app_nil_r in Hprefix.
    destruct (JSON_parse t); [| reflexivity].
    rewrite Ht in Hprefix. simpl in Hprefix.
    assert (false = true); [| discriminate].
    apply Hprefix. apply in_seq. rewrite length_app.
    destruct rest; [contradiction | simpl; lia].
Qed.

(** ASCII bytes decode to themselves, whatever the chunk they arrive in. *)
Lemma toString_ascii (chunk : Buffer) :
  Forall (fun b => (Byte.to_N b <= 0x7F)%N) chunk ->
  toString chunk = map Byte.to_N chunk.
Proof.
  unfold toString. induction 1 as [| b chunk Hb _ IH]; [reflexivity |].
  simpl utf8Decode. unfold utf8Step. simpl needed.
  change (0 =? 0)%N with true. cbv iota. unfold utf8Lead.
  apply N.leb_le in Hb as Hb'. rewrite Hb'.
  simpl. rewrite IH. f_equal. unfold utf16Units.
  destruct (N.ltb_spec (Byte.to_N b) 0x10000); [reflexivity | lia].
Qed.

Lemma toString_ascii_chunks (data : list Buffer) :
  Forall (fun b => (Byte.to_N b <= 0x7F)%N) (concat data) ->
  concat (map toString data) = map Byte.to_N (concat data).
Proof.
  induction data as [| chunk data IH]; intros H; [reflexivity |].
  simpl in *. apply Forall_app in H as [Hchunk Hdata].
  now rewrite map_app, toString_ascii, IH.
Qed.

(** Chunk-boundary independence where the code achieves it.  When the
    decoded texts of the chunks, put end to end, are a well-formed stream of
    records, the end of the stream finds the fragments of the records
    accumulated in order, however the text was cut into chunks. *)
Theorem wellFormed_stream_accumulated
  (JSON_parse : jsstring -> option OllamaGenerateResponse)
  (records : list jsstring) (data : list Buffer) :
  Forall (wellFormedRecord JSON_parse) records ->
  concat (map toString data) = streamText records ->
  accumulated JSON_parse data = fragments JSON_parse records.
Proof.
  intros Hrecords Hdata. unfold accumulated.
  rewrite (feed_wellFormed JSON_parse data start records []); auto.
  simpl. lia.
Qed.

(** For a stream of ASCII bytes every cut into chunks gives the same text:
    in one chunk, byte by byte, or otherwise. *)
Corollary ascii_stream_chunking
  (JSON_parse : jsstring -> option OllamaGenerateResponse)
  (records : list jsstring) (stream : Buffer) (data : list Buffer) :
  Forall (wellFormedRecord JSON_parse) records ->
  Forall (fun b => (Byte.to_N b <= 0x7F)%N) stream ->
  map Byte.to_N stream = streamText records ->
  concat data = stream ->
  accumulated JSON_parse data = fragments JSON_parse records.
Proof.
  intros Hrecords Hascii Hstream Hdata. subst stream.
  apply wellFormed_stream_accumulated; [assumption |].
  now rewrite toString_ascii_chunks.
Qed.

(** The three records of the specification, delivered byte by byte. *)
Example byte_by_byte_delivery :
  let stream := line "{`response`:`Fix `}" ++ line "{`response`:`bug`}"
                ++ line "{`response`:` in parser`,`done`:true}" in
  accumulated JSON.parseResponse (map (fun b => [b]) stream) = txt "Fix bug in parser"
  /\ accumulated JSON.parseResponse [stream] = txt "Fix bug in parser".
Proof.
  intros stream.
  assert (Hrecords : Forall (wellFormedRecord JSON.parseResponse)
                       [txt "{`response`:`Fix `}"; txt "{`response`:`bug`}";
                        txt "{`response`:` in parser`,`done`:true}"])
    by (repeat (apply Forall_cons;
                  [apply wellFormedRecordb_sound; vm_compute; reflexivity |]);
        apply Forall_nil).
  assert (Hascii : Forall (fun b => (Byte.to_N b <= 0x7F)%N) stream)
    by (apply Forall_forall; intros b Hb; apply N.leb_le;
        revert b Hb; apply forallb_forall; vm_compute; reflexivity).
  split.
  - rewrite (ascii_stream_chunking _ _ stream _ Hrecords Hascii); reflexivity.
  - rewrite (ascii_stream_chunking _ _ stream _ Hrecords Hascii); reflexivity.
Qed.

(* ================================================================== *)
(** ** Chunk boundaries and conservation *)
(* ================================================================== *)

(** C1 at a failing input.  The stream is one record whose fragment is
    [caf] followed by U+00E9, two bytes in UTF-8.  Delivered whole, the
    fragment is accumulated as sent; delivered in two chunks that part the
    two bytes, each chunk is decoded on its own, each half becomes U+FFFD,
    and the accumulated text differs. *)
Theorem C1_chunk_boundary_inside_character :
  let whole := bytes "{`response`:`caf" ++ [xc3; xa9] ++ line "`}" in
  let first := bytes "{`response`:`caf" ++ [xc3] in
  let second := [xa9] ++ line "`}" in
  first ++ second = whole
  /\ accumulated JSON.parseResponse [whole] = txt "caf" ++ [0xE9%N]
  /\ accumulated JSON.parseResponse [first; second]
     = txt "caf" ++ [0xFFFD%N; 0xFFFD%N]
  /\ accumulated JSON.parseResponse [first; second]
     <> accumulated JSON.parseResponse [whole].
Proof.
  intros whole first second.
  split; [reflexivity |]. split; [reflexivity |]. split; [reflexivity |].
  vm_compute. discriminate.
Qed.

(** The accounting of one data event: the buffer loses as many code units
    as the event counted as processed, from its front, and is empty when the
    count exceeds what it holds. *)
Lemma onData_accounting
  (JSON_parse : jsstring -> option OllamaGenerateResponse)
  (st : Accumulator) (chunk : Buffer) :
  fullResponse (onData JSON_parse st chunk)
  = skipn (length (processedResponse JSON_parse st chunk))
      (fullResponse st ++ toString chunk)
  /\ length (fullResponse (onData JSON_parse st chunk))
     = length (fullResponse st) + length (toString chunk)
       - length (processedResponse JSON_parse st chunk).
Proof.
  rewrite onData_closed_form. unfold processedResponse.
  rewrite fold_tryLine. simpl.
  split; [reflexivity |]. now rewrite length_skipn, length_app.
Qed.

(** C2 at two failing inputs.  A chunk that ends with a complete record
    before its newline: the event counts the record and a newline as
    processed, one code unit more than was received.  A malformed line
    followed by a record in one chunk: the processed length is cut from the
    front of the buffer, the record stays in the buffer and the next event
    appends its fragment a second time. *)
Theorem C2_conservation_broken :
  (received [bytes "{`response`:`a`}"] = 16
   /\ consumed JSON.parseResponse start [bytes "{`response`:`a`}"] = 17
   /\ fullResponse (feed JSON.parseResponse start [bytes "{`response`:`a`}"]) = []
   /\ ~ conserved JSON.parseResponse [bytes "{`response`:`a`}"])
  /\ (let first := line "this is not JSON at all" ++ line "{`response`:`a`}" in
      let second := line "{`response`:`b`}" in
      fullResponse (feed JSON.parseResponse start [first])
      = toString (line "at all" ++ line "{`response`:`a`}")
      /\ generatedMessage (feed JSON.parseResponse start [first]) = txt "a"
      /\ generatedMessage (feed JSON.parseResponse start [first; second]) = txt "aab").
Proof.
  split.
  - split; [reflexivity |]. split; [reflexivity |]. split; [reflexivity |].
    unfold conserved. vm_compute. discriminate.
  - intros first second. repeat split; reflexivity.
Qed.

(* ================================================================== *)
(** ** The prompt *)
(* ================================================================== *)

Lemma startsWith_app (s p : jsstring) :
  startsWith s p = true -> s = p ++ skipn (length p) s.
Proof.
  revert s. induction p as [| a p IH]; intros s H; [reflexivity |].
  destruct s as [| c s]; [discriminate |].
  simpl in H. apply andb_prop in H as [Hac Hrest].
  apply N.eqb_eq in Hac. subst c. simpl. f_equal. now apply IH.
Qed.

(** [search] finds an occurrence: the text is what precedes it, the pattern
    and what follows. *)
Lemma search_sound (pat s before after : jsstring) :
  search pat s = Some (before, after) -> s = before ++ pat ++ after.
Proof.
  revert before after. induction s as [| c s IH]; intros before after H.
  - simpl in H. destruct (startsWith [] pat) eqn:E; [| discriminate].
    injection H as <- <-. now apply startsWith_app in E.
  - simpl in H. destruct (startsWith (c :: s) pat) eqn:E.
    + injection H as <- <-. now apply startsWith_app in E.
    + destruct (search pat s) as [[b a] |]; [| discriminate].
      injection H as <- <-. simpl. f_equal. now apply IH.
Qed.

(** A replacement text without a dollar sign is inserted as it is. *)
Lemma getSubstitution_no_dollar (matched before after template : jsstring) :
  ~ In 36%N template -> getSubstitution matched before after template = template.
Proof.
  induction template as [| c t IH]; intros Hno; [reflexivity |].
  simpl. destruct (N.eqb_spec c 36) as [-> | _].
  - exfalso. apply Hno. now left.
  - f_equal. apply IH. intros Hin. apply Hno. now right.
Qed.

Lemma truncate_long (diffText : jsstring) (maxLength : nat) :
  maxLength < length diffText ->
  truncate diffText (Z.of_nat maxLength)
  = firstn maxLength diffText ++ truncationMarker.
Proof.
  intros Hlong. unfold truncate.
  destruct (Z.gtb_spec (Z.of_nat (length diffText)) (Z.of_nat maxLength)); [| lia].
  f_equal. unfold substring, clamp.
  replace (Z.min (Z.max 0 (Z.min 0 (Z.of_nat (length diffText))))
             (Z.max 0 (Z.min (Z.of_nat maxLength) (Z.of_nat (length diffText)))))
    with 0%Z by lia.
  replace (Z.max (Z.max 0 (Z.min 0 (Z.of_nat (length diffText))))
             (Z.max 0 (Z.min (Z.of_nat maxLength) (Z.of_nat (length diffText)))))
    with (Z.of_nat maxLength) by lia.
  rewrite Z.sub_0_r, Nat2Z.id. reflexivity.
Qed.

Lemma truncate_short (diffText : jsstring) (maxLength : Z) :
  (Z.of_nat (length diffText) <= maxLength)%Z -> truncate diffText maxLength = diffText.
Proof.
  intros Hshort. unfold truncate.
  destruct (Z.gtb_spec (Z.of_nat (length diffText)) maxLength); [lia | reflexivity].
Qed.

(** For a diff without a dollar sign the prompt is the template with the
    first [{diff}] replaced by the diff, truncated when too long. *)
Lemma renderPrompt_no_dollar
  (promptTemplate before after diffText : jsstring) (maxLength : nat) :
  search (txt "{diff}") promptTemplate = Some (before, after) ->
  ~ In 36%N diffText ->
  promptTemplate = before ++ txt "{diff}" ++ after
  /\ renderPrompt promptTemplate diffText (Z.of_nat maxLength)
     = before
       ++ (if length diffText <=? maxLength then diffText
           else firstn maxLength diffText ++ truncationMarker)
       ++ after.
Proof.
  intros Hsearch Hno. split; [now apply search_sound |].
  unfold renderPrompt, replace. rewrite Hsearch. f_equal. f_equal.
  destruct (Nat.leb_spec (length diffText) maxLength) as [Hle | Hgt].
  - rewrite truncate_short by lia. now apply getSubstitution_no_dollar.
  - rewrite truncate_long by lia. apply getSubstitution_no_dollar.
    intros Hin. apply in_app_or in Hin as [Hin | Hin].
    + apply Hno. rewrite <- (firstn_skipn maxLength diffText).
      apply in_or_app. now left.
    + vm_compute in Hin. intuition discriminate.
Qed.

(** C5 at two failing inputs.  The diff is passed to [replace] as the
    replacement text, in which a dollar sign is special.  A diff that holds
    [$$] appears in the prompt with one dollar sign, and a diff that holds
    [$&] appears with the placeholder written back in; the same happens to a
    truncated diff. *)
Theorem C5_dollar_in_diff_rewritten :
  renderPrompt (txt "Summarize: {diff}") (txt "+ echo $$ > run.pid") 4000
  = txt "Summarize: + echo $ > run.pid"
  /\ renderPrompt (txt "Summarize: {diff}") (txt "+ s/foo/<$&>/") 4000
     = txt "Summarize: + s/foo/<{diff}>/"
  /\ truncate (txt "+ cost=$$5 and a long tail") 10
     = txt "+ cost=$$5" ++ truncationMarker
  /\ renderPrompt (txt "Summarize: {diff}") (txt "+ cost=$$5 and a long tail") 10
     = txt "Summarize: + cost=$5" ++ truncationMarker
  /\ renderPrompt (txt "Summarize: {diff}") (txt "+ cost=$$5 and a long tail") 10
     <> txt "Summarize: " ++ truncate (txt "+ cost=$$5 and a long tail") 10.
Proof.
  repeat split; try reflexivity. vm_compute. discriminate.
Qed.

(* ================================================================== *)
(** ** The request and the command handler *)
(* ================================================================== *)

Lemma truthy_absent (setting : option jsstring) :
  absent setting <-> truthy setting = None.
Proof.
  unfold absent. destruct setting as [[| c s] |]; simpl; split; intros H;
    try reflexivity; try discriminate; auto.
  destruct H; discriminate.
Qed.

Lemma truthy_present (setting : option jsstring) (text : jsstring) :
  truthy setting = Some text -> setting = Some text /\ text <> [].
Proof.
  destruct setting as [[| c s] |]; simpl; intros H; try discriminate.
  injection H as <-. split; [reflexivity | discriminate].
Qed.

(** C8. When one of [apiUrl], [model] and [prompt] is absent, the generation
    shows the error notice of the missing configuration and resolves with no
    message, and no request is issued.  A request is issued only when the
    three settings are present: then exactly one is sent, to the configured
    address. *)
Theorem C8_config_missing_no_request
  (JSON_parse : jsstring -> option OllamaGenerateResponse)
  (diffText : jsstring) (h : Host) :
  (absent (apiUrl (configuration h)) \/ absent (model (configuration h))
   \/ absent (prompt (configuration h)) ->
   generateCommitMessage JSON_parse diffText h
   = (Resolved None, addNotice (ErrorMessage missingConfiguration) h)
   /\ requests (snd (generateCommitMessage JSON_parse diffText h)) = requests h)
  /\ (requests (snd (generateCommitMessage JSON_parse diffText h)) <> requests h ->
      exists address name template request,
        apiUrl (configuration h) = Some address /\ address <> []
        /\ model (configuration h) = Some name /\ name <> []
        /\ prompt (configuration h) = Some template /\ template <> []
        /\ url request = address
        /\ requests (snd (generateCommitMessage JSON_parse diffText h))
           = requests h ++ [request]).
Proof.
  unfold generateCommitMessage, bind, getConfiguration.
  split.
  - intros Habsent.
    assert (Hdefault :
             match truthy (apiUrl (configuration h)), truthy (model (configuration h)),
                   truthy (prompt (configuration h)) with
             | Some _, Some _, Some _ => False
             | _, _, _ => True
             end).
    { destruct Habsent as [H | [H | H]]; apply truthy_absent in H; rewrite H;
        repeat (match goal with |- context [match ?x with _ => _ end] => destruct x end);
        exact I. }
    destruct (truthy (apiUrl (configuration h))), (truthy (model (configuration h))),
      (truthy (prompt (configuration h))); try contradiction; split; reflexivity.
  - destruct (truthy (apiUrl (configuration h))) as [address |] eqn:Haddress;
      [| intros H; now contradiction H].
    destruct (truthy (model (configuration h))) as [name |] eqn:Hname;
      [| intros H; now contradiction H].
    destruct (truthy (prompt (configuration h))) as [template |] eqn:Htemplate;
      [| intros H; now contradiction H].
    intros _.
    apply truthy_present in Haddress as [Ha Ha'].
    apply truthy_present in Hname as [Hn Hn'].
    apply truthy_present in Htemplate as [Ht Ht'].
    exists address, name, template,
      {| url := address; bodyModel := name;
         bodyPrompt :=
           renderPrompt template diffText
             match maxDiffLength (configuration h) with
             | Some n => n
             | None => 4000%Z
             end;
         bodyStream := true |}.
    do 7 (split; [assumption || reflexivity |]).
    unfold post, showErrorMessage, notify, ret, consume, onEnd, onError, settle,
      showWarningMessage, reject, bind, notify.
    match goal with
    | |- context [server h ?r] => destruct (server h r) as [e | body]
    end.
    + reflexivity.
    + destruct (ending body).
      * destruct (isEmpty _); reflexivity.
      * reflexivity.
Qed.

Lemma C8_config_missing_no_request_witness :
  let h := idle NotInstalled
             {| apiUrl := Some (txt "http://localhost:11434/api/generate");
                model := None; prompt := Some (txt "Write a commit message: {diff}");
                maxDiffLength := None |}
             (fun _ => PostThrows (ThrownOther [])) in
  generateCommitMessage JSON.parseResponse (txt "+ a line") h
  = (Resolved None, addNotice (ErrorMessage missingConfiguration) h)
  /\ requests (snd (generateCommitMessage JSON.parseResponse (txt "+ a line") h))
     = requests h.
Proof.
  intros h.
  apply (proj1 (C8_config_missing_no_request JSON.parseResponse (txt "+ a line") h)).
  right. left. left. reflexivity.
Defined.

Section Handler.
Variable JSON_parse : jsstring -> option OllamaGenerateResponse.

(** With the three settings present, the request is sent and the answer
    of the endpoint decides. *)
Lemma generateCommitMessage_answered
  (diffText : jsstring) (h : Host) (address name template : jsstring) :
  truthy (apiUrl (configuration h)) = Some address ->
  truthy (model (configuration h)) = Some name ->
  truthy (prompt (configuration h)) = Some template ->
  let request :=
    {| url := address; bodyModel := name;
       bodyPrompt :=
         renderPrompt template diffText
           match maxDiffLength (configuration h) with
           | Some n => n
           | None => 4000%Z
           end;
       bodyStream := true |} in
  generateCommitMessage JSON_parse diffText h
  = match server h request with
    | PostResponse stream => consume JSON_parse address stream (addRequest request h)
    | PostThrows error =>
        (Resolved None,
         addNotice (ErrorMessage (requestFailure address error)) (addRequest request h))
    end.
Proof.
  intros Ha Hn Ht request.
  unfold generateCommitMessage, bind, getConfiguration.
  rewrite Ha, Hn, Ht. unfold post. fold request.
  destruct (server h request); reflexivity.
Qed.

(** With a repository and a staged diff, the handler generates and
    dispatches on the result; a rejection of the generation is the
    rejection of the handler. *)
Lemma commandHandler_generates
  (h : Host) (repo : Repository) (others : list Repository) (c : N) (text : jsstring) :
  git h = GitAPI (repo :: others) ->
  diff repo = DiffText (c :: text) ->
  commandHandler JSON_parse h
  = match generateCommitMessage JSON_parse (c :: text) h with
    | (Resolved generated, h') => populate repo generated h'
    | (Rejected e, h') => (Rejected e, h')
    end.
Proof.
  intros Hgit Hdiff.
  unfold commandHandler, getGitAPI, getExtension, getStagedDiff, bind, ret.
  rewrite Hgit, Hdiff. reflexivity.
Qed.

(** An error event of the stream: the notice is shown and the promise of
    the command handler is rejected with the error. *)
Lemma commandHandler_stream_error
  (h : Host) (repo : Repository) (others : list Repository) (c : N)
  (text address name template : jsstring) (data : list Buffer) (error : Error) :
  git h = GitAPI (repo :: others) ->
  diff repo = DiffText (c :: text) ->
  truthy (apiUrl (configuration h)) = Some address ->
  truthy (model (configuration h)) = Some name ->
  truthy (prompt (configuration h)) = Some template ->
  (forall request,
      server h request = PostResponse {| chunks := data; ending := StreamError error |}) ->
  exists request,
    commandHandler JSON_parse h
    = (Rejected (ThrownError error),
       addNotice (ErrorMessage (streamFailure address error)) (addRequest request h)).
Proof.
  intros Hgit Hdiff Ha Hn Ht Hserver.
  rewrite (commandHandler_generates h repo others c text Hgit Hdiff).
  rewrite (generateCommitMessage_answered (c :: text) h address name template Ha Hn Ht).
  rewrite Hserver. eexists. reflexivity.
Qed.

End Handler.

(** The guard of the dispatch: a repository without an input box gets the
    warning instead of the message. *)
Lemma populate_without_input_box
  (repo : Repository) (c : N) (text : jsstring) (h : Host) :
  inputBox repo = None ->
  populate repo (Some (c :: text)) h
  = (Resolved tt, addNotice (WarningMessage (txt "Could not find Git commit input box.")) h).
Proof. intros Hbox. unfold populate. simpl. rewrite Hbox. reflexivity. Qed.

(** C6. For a stream that ends without an error: when the cleaned text is
    empty, the generation shows the warning and resolves with no message,
    and the handler leaves the repositories, the input box among them, as
    they were; otherwise the generation resolves with the cleaned text, and
    the handler writes it into the input box of the repository and
    announces it. *)
Theorem C6_empty_result_not_written
  (JSON_parse : jsstring -> option OllamaGenerateResponse)
  (h : Host) (repo : Repository) (others : list Repository) (c : N)
  (text address name template : jsstring) (data : list Buffer) :
  git h = GitAPI (repo :: others) ->
  diff repo = DiffText (c :: text) ->
  truthy (apiUrl (configuration h)) = Some address ->
  truthy (model (configuration h)) = Some name ->
  truthy (prompt (configuration h)) = Some template ->
  let request :=
    {| url := address; bodyModel := name;
       bodyPrompt :=
         renderPrompt template (c :: text)
           match maxDiffLength (configuration h) with
           | Some n => n
           | None => 4000%Z
           end;
       bodyStream := true |} in
  server h request = PostResponse {| chunks := data; ending := StreamEnd |} ->
  let cleaned := cleanup (accumulated JSON_parse data) in
  let sent := addRequest request h in
  match cleaned with
  | [] =>
      generateCommitMessage JSON_parse (c :: text) h
      = (Resolved None,
         addNotice (WarningMessage (txt "Ollama returned an empty message.")) sent)
      /\ commandHandler JSON_parse h
         = (Resolved tt,
            addNotice (WarningMessage (txt "Ollama returned an empty message.")) sent)
      /\ git (snd (commandHandler JSON_parse h)) = git h
  | _ :: _ =>
      generateCommitMessage JSON_parse (c :: text) h = (Resolved (Some cleaned), sent)
      /\ (inputBox repo <> None ->
          commandHandler JSON_parse h
          = (Resolved tt,
             addNotice (InformationMessage (txt "Ollama commit message generated."))
               (writeInputBox cleaned sent))
          /\ git (snd (commandHandler JSON_parse h))
             = GitAPI ({| diff := diff repo; inputBox := Some cleaned |} :: others))
  end.
Proof.
  intros Hgit Hdiff Ha Hn Ht request Hserver cleaned sent.
  assert (Hgen : generateCommitMessage JSON_parse (c :: text) h
                 = settle (accumulated JSON_parse data) sent).
  { rewrite (generateCommitMessage_answered JSON_parse (c :: text) h
               address name template Ha Hn Ht).
    fold request. rewrite Hserver. reflexivity. }
  rewrite (commandHandler_generates JSON_parse h repo others c text Hgit Hdiff).
  rewrite Hgen. unfold settle. fold cleaned.
  destruct cleaned as [| c' cleaned'] eqn:Hcleaned.
  - simpl. unfold populate. simpl. repeat split; reflexivity.
  - simpl. split; [reflexivity |]. intros Hbox.
    unfold populate. simpl truthy.
    destruct (inputBox repo) as [old |]; [| contradiction].
    unfold bind, setInputBoxValue, showInformationMessage, notify.
    split; [reflexivity |].
    simpl. unfold writeInputBox, sent. simpl. rewrite Hgit. reflexivity.
Qed.

Lemma C6_empty_result_not_written_witness :
  (let h := exampleHost (PostResponse {| chunks := [line "{`response`:` `}";
                                                    line "{`response`:``,`done`:true}"];
                                         ending := StreamEnd |}) in
   generateCommitMessage JSON.parseResponse (txt "+ a line") h
   = (Resolved None,
      addNotice (WarningMessage (txt "Ollama returned an empty message."))
        (addRequest exampleRequest h))
   /\ commandHandler JSON.parseResponse h
      = (Resolved tt,
         addNotice (WarningMessage (txt "Ollama returned an empty message."))
           (addRequest exampleRequest h))
   /\ git (snd (commandHandler JSON.parseResponse h)) = GitAPI [exampleRepository])
  /\ (let h := exampleHost (PostResponse {| chunks := [line "{`response`:`Fix bug`}"];
                                            ending := StreamEnd |}) in
      generateCommitMessage JSON.parseResponse (txt "+ a line") h
      = (Resolved (Some (txt "Fix bug")), addRequest exampleRequest h)
      /\ commandHandler JSON.parseResponse h
         = (Resolved tt,
            addNotice (InformationMessage (txt "Ollama commit message generated."))
              (writeInputBox (txt "Fix bug") (addRequest exampleRequest h)))
      /\ git (snd (commandHandler JSON.parseResponse h))
         = GitAPI [{| diff := DiffText (txt "+ a line");
                      inputBox := Some (txt "Fix bug") |}]).
Proof.
  split.
  - intros h.
    exact (C6_empty_result_not_written JSON.parseResponse h exampleRepository []
             43%N (txt " a line") (txt "http://localhost:11434/api/generate")
             (txt "llama3") (txt "Write a commit message: {diff}")
             [line "{`response`:` `}"; line "{`response`:``,`done`:true}"]
             eq_refl eq_refl eq_refl eq_refl eq_refl eq_refl).
  - intros h.
    destruct (C6_empty_result_not_written JSON.parseResponse h exampleRepository []
                43%N (txt " a line") (txt "http://localhost:11434/api/generate")
                (txt "llama3") (txt "Write a commit message: {diff}")
                [line "{`response`:`Fix bug`}"]
                eq_refl eq_refl eq_refl eq_refl eq_refl eq_refl)
      as [Hgenerated Hwritten].
    split; [exact Hgenerated |].
    apply Hwritten. discriminate.
Defined.

(** C7 at a failing input.  The stream delivers one record and then emits an
    error.  The error handler shows its notice and rejects the promise; the
    rejection is not caught by the [try] around the request, nor by the
    command handler, whose invocation ends rejected.  A failure of the
    request itself, the sibling path, is caught: the handler resolves. *)
Theorem C7_stream_error_rejects_handler :
  let error := {| message := txt "aborted"; kind := PlainError |} in
  let h := exampleHost (PostResponse {| chunks := [line "{`response`:`Fix `}"];
                                        ending := StreamError error |}) in
  let h' := exampleHost (PostThrows (ThrownError error)) in
  generateCommitMessage JSON.parseResponse (txt "+ a line") h
  = (Rejected (ThrownError error),
     addNotice (ErrorMessage (txt "Error streaming from Ollama: aborted"))
       (addRequest exampleRequest h))
  /\ commandHandler JSON.parseResponse h
     = (Rejected (ThrownError error),
        addNotice (ErrorMessage (txt "Error streaming from Ollama: aborted"))
          (addRequest exampleRequest h))
  /\ commandHandler JSON.parseResponse h'
     = (Resolved tt,
        addNotice (ErrorMessage (txt "Error: aborted")) (addRequest exampleRequest h')).
Proof. repeat split; reflexivity. Qed.


(* ================================================================== *)
(** ** Further properties of the accumulator *)
(* ================================================================== *)

Section AccumulatorProperties.
Variable JSON_parse : jsstring -> option OllamaGenerateResponse.

Lemma feed_app (st : Accumulator) (data more : list Buffer) :
  feed JSON_parse st (data ++ more) = feed JSON_parse (feed JSON_parse st data) more.
Proof. unfold feed. apply fold_left_app. Qed.

Lemma feed_message_grows (data : list Buffer) :
  forall st, exists added,
    generatedMessage (feed JSON_parse st data) = generatedMessage st ++ added.
Proof.
  induction data as [| chunk data IH]; intros st.
  - exists []. simpl. now rewrite app_nil_r.
  - change (feed JSON_parse st (chunk :: data))
      with (feed JSON_parse (onData JSON_parse st chunk) data).
    destruct (IH (onData JSON_parse st chunk)) as [added Hadded].
    rewrite Hadded, onData_closed_form. simpl generatedMessage.
    eexists. rewrite <- app_assoc. reflexivity.
Qed.

Lemma feed_buffer_suffix (data : list Buffer) :
  forall st, exists cut,
    fullResponse st ++ concat (map toString data)
    = cut ++ fullResponse (feed JSON_parse st data).
Proof.
  induction data as [| chunk data IH]; intros st.
  - exists []. simpl. now rewrite app_nil_r.
  - change (feed JSON_parse st (chunk :: data))
      with (feed JSON_parse (onData JSON_parse st chunk) data).
    destruct (IH (onData JSON_parse st chunk)) as [cut Hcut].
    rewrite onData_closed_form in Hcut |- *. simpl fullResponse in Hcut.
    set (full := fullResponse st ++ toString chunk) in *.
    set (n := length (processed JSON_parse (jsonResponses full))) in *.
    exists (firstn n full ++ cut).
    rewrite <- app_assoc, <- Hcut. simpl map. simpl concat.
    rewrite !app_assoc. fold full. now rewrite firstn_skipn.
Qed.

End AccumulatorProperties.

(** X1. On a stream of well-formed records the accumulated text is the
    fragments of the records in order, whatever the cut of the decoded text
    into chunks: two deliveries of the same text accumulate the same. *)
Theorem X1_chunking_of_text_is_irrelevant
  (JSON_parse : jsstring -> option OllamaGenerateResponse)
  (records : list jsstring) (data data' : list Buffer) :
  Forall (wellFormedRecord JSON_parse) records ->
  concat (map toString data) = streamText records ->
  concat (map toString data') = streamText records ->
  accumulated JSON_parse data = fragments JSON_parse records
  /\ accumulated JSON_parse data' = accumulated JSON_parse data.
Proof.
  intros Hrecords Hdata Hdata'.
  assert (H : forall d, concat (map toString d) = streamText records ->
                        accumulated JSON_parse d = fragments JSON_parse records).
  { intros d Hd. unfold accumulated.
    rewrite (feed_wellFormed JSON_parse d start records []); auto.
    simpl. lia. }
  split; [now apply H |]. now rewrite !H.
Qed.

Lemma X1_chunking_of_text_is_irrelevant_witness :
  let first := bytes "{`respo" in
  let second := bytes "nse`:`Fix `}" ++ [x0a] ++ bytes "{`response`:`bug`}" in
  let third := [x0a] in
  let whole := line "{`response`:`Fix `}" ++ line "{`response`:`bug`}" in
  accumulated JSON.parseResponse [first; second; third] = txt "Fix bug"
  /\ accumulated JSON.parseResponse [whole]
     = accumulated JSON.parseResponse [first; second; third].
Proof.
  intros first second third whole.
  apply (X1_chunking_of_text_is_irrelevant JSON.parseResponse
           [txt "{`response`:`Fix `}"; txt "{`response`:`bug`}"]
           [first; second; third] [whole]).
  - repeat (apply Forall_cons;
            [apply wellFormedRecordb_sound; vm_compute; reflexivity |]).
    apply Forall_nil.
  - reflexivity.
  - reflexivity.
Defined.



(** X4. Text that the data events have appended is never changed: after
    more events the accumulated message still starts with what it was, and
    the end event only appends to it. *)
Theorem X4_accumulated_text_only_grows
  (JSON_parse : jsstring -> option OllamaGenerateResponse)
  (st : Accumulator) (data more : list Buffer) :
  (exists added,
      generatedMessage (feed JSON_parse st (data ++ more))
      = generatedMessage (feed JSON_parse st data) ++ added)
  /\ (exists added,
         finalParse JSON_parse (feed JSON_parse st data)
         = generatedMessage (feed JSON_parse st data) ++ added).
Proof.
  split.
  - rewrite feed_app. apply feed_message_grows.
  - unfold finalParse.
    destruct (isEmpty (trim (fullResponse (feed JSON_parse st data)))).
    + exists []. now rewrite app_nil_r.
    + destruct (JSON_parse (fullResponse (feed JSON_parse st data))) as [parsed |].
      * now exists (fragment parsed).
      * exists []. now rewrite app_nil_r.
Qed.

(** X5. The pending buffer is always an end piece of the text received: the
    data events cut from the front of the buffer and never put anything into
    it but the chunks. *)
Theorem X5_pending_buffer_is_tail_of_received
  (JSON_parse : jsstring -> option OllamaGenerateResponse) (data : list Buffer) :
  exists cut,
    concat (map toString data)
    = cut ++ fullResponse (feed JSON_parse start data)
  /\ length (fullResponse (feed JSON_parse start data)) <= received data.
Proof.
  destruct (feed_buffer_suffix JSON_parse data start) as [cut Hcut].
  simpl in Hcut. exists cut. split; [exact Hcut |].
  assert (Hreceived : received data = length (concat (map toString data))).
  { clear. induction data as [| chunk data IH]; [reflexivity |].
    simpl. now rewrite length_app, IH. }
  rewrite Hreceived, Hcut, length_app. lia.
Qed.

(** X6. A data event in which no candidate line parses waits: the chunk is
    appended to the pending buffer, nothing is cut from it, and the
    accumulated message stays as it is. *)
Theorem X6_unparsed_text_waits
  (JSON_parse : jsstring -> option OllamaGenerateResponse)
  (st : Accumulator) (chunk : Buffer) :
  (forall candidate,
      In candidate (jsonResponses (fullResponse st ++ toString chunk)) ->
      JSON_parse candidate = None) ->
  onData JSON_parse st chunk
  = {| fullResponse := fullResponse st ++ toString chunk;
       generatedMessage := generatedMessage st |}.
Proof.
  intros Hnone. rewrite onData_closed_form.
  set (full := fullResponse st ++ toString chunk) in *.
  assert (Hfragments : fragments JSON_parse (jsonResponses full) = []
                       /\ processed JSON_parse (jsonResponses full) = []).
  { unfold fragments, processed.
    induction (jsonResponses full) as [| l ls IH]; [now split |].
    simpl. rewrite (Hnone l) by now left.
    apply IH. intros candidate Hin. apply Hnone. now right. }
  destruct Hfragments as [-> ->]. simpl. now rewrite app_nil_r.
Qed.

Lemma X6_unparsed_text_waits_witness :
  onData JSON.parseResponse
    {| fullResponse := txt "{`respo"; generatedMessage := txt "Fix " |}
    (bytes "nse`:`bu")
  = {| fullResponse := txt "{`respo" ++ toString (bytes "nse`:`bu");
       generatedMessage := txt "Fix " |}.
Proof.
  apply (X6_unparsed_text_waits JSON.parseResponse
           {| fullResponse := txt "{`respo"; generatedMessage := txt "Fix " |}
           (bytes "nse`:`bu")).
  intros candidate Hin. vm_compute in Hin.
  destruct Hin as [<- | []]. reflexivity.
Defined.

(* ================================================================== *)
(** ** Further properties of the cleanup *)
(* ================================================================== *)

Lemma within_refl (s : jsstring) : within s s.
Proof. exists [], []. now rewrite app_nil_r. Qed.

Lemma within_trans (x y z : jsstring) : within x y -> within y z -> within x z.
Proof.
  intros (a & b & ->) (c & d & ->). exists (c ++ a), (b ++ d).
  now rewrite <- !app_assoc.
Qed.

Lemma trimStart_suffix (s : jsstring) : exists a, s = a ++ trimStart s.
Proof.
  induction s as [| c s [a IH]]; [now exists [] |].
  simpl. destruct (isWhiteSpace c).
  - exists (c :: a). simpl. now f_equal.
  - now exists [].
Qed.

Lemma trimEnd_prefix (s : jsstring) : exists b, s = trimEnd s ++ b.
Proof.
  unfold trimEnd. destruct (trimStart_suffix (rev s)) as [a Ha].
  exists (rev a). rewrite <- rev_app_distr, <- Ha. now rewrite rev_involutive.
Qed.

Lemma trim_within (s : jsstring) : within (trim s) s.
Proof.
  unfold trim. destruct (trimStart_suffix s) as [a Ha].
  destruct (trimEnd_prefix (trimStart s)) as [b Hb].
  exists a, b. now rewrite <- Hb.
Qed.

Lemma stripQuotes_within (s : jsstring) : within (stripQuotes s) s.
Proof.
  rewrite stripQuotes_wrapped. unfold Spec.wrapped.
  destruct s as [| q rest]; [apply within_refl |].
  destruct (rev rest) as [| q' inside] eqn:Hrev; [apply within_refl |].
  destruct (Spec.isQuote q && (q' =? q)%N); [| apply within_refl].
  apply (f_equal (@rev N)) in Hrev. rewrite rev_involutive in Hrev.
  simpl in Hrev. subst rest. now exists [q], [q'].
Qed.

Lemma matchIgnoreCase_suffix (pat s rest : jsstring) :
  matchIgnoreCase pat s = Some rest ->
  exists label, s = label ++ rest /\ length label = length pat.
Proof.
  revert s. induction pat as [| p pat IH]; intros s H.
  - injection H as <-. now exists [].
  - destruct s as [| c s]; [discriminate |]. simpl in H.
    destruct (canonicalize p =? canonicalize c)%N; [| discriminate].
    destruct (IH s H) as (label & -> & Hlen).
    exists (c :: label). simpl. now rewrite Hlen.
Qed.

Lemma replaceLeadingIgnoreCase_within (s pat : jsstring) :
  within (replaceLeadingIgnoreCase s pat) s.
Proof.
  unfold replaceLeadingIgnoreCase.
  destruct (matchIgnoreCase pat s) as [rest |] eqn:H; [| apply within_refl].
  destruct (matchIgnoreCase_suffix pat s rest H) as (label & -> & _).
  exists label, []. now rewrite app_nil_r.
Qed.

(** What [trimStart] returns is empty or starts with a character that is no
    white space; on such a string it does nothing. *)
Lemma trimStart_fixed (s : jsstring) :
  match s with [] => True | c :: _ => isWhiteSpace c = false end ->
  trimStart s = s.
Proof. destruct s as [| c s]; [reflexivity |]. simpl. now intros ->. Qed.

Lemma trimStart_head (s : jsstring) :
  match trimStart s with [] => True | c :: _ => isWhiteSpace c = false end.
Proof.
  induction s as [| c s IH]; [exact I |].
  simpl. destruct (isWhiteSpace c) eqn:E; [exact IH | exact E].
Qed.

Lemma trimStart_idempotent (s : jsstring) : trimStart (trimStart s) = trimStart s.
Proof. apply trimStart_fixed, trimStart_head. Qed.

Lemma trimEnd_idempotent (s : jsstring) : trimEnd (trimEnd s) = trimEnd s.
Proof.
  unfold trimEnd. now rewrite rev_involutive, trimStart_idempotent.
Qed.

Lemma trimEnd_head (s : jsstring) :
  match s with [] => True | c :: _ => isWhiteSpace c = false end ->
  match trimEnd s with [] => True | c :: _ => isWhiteSpace c = false end.
Proof.
  intros Hs. destruct (trimEnd_prefix s) as [b Hb].
  destruct (trimEnd s) as [| c t]; [exact I |].
  rewrite Hb in Hs. exact Hs.
Qed.

Lemma trim_idempotent (s : jsstring) : trim (trim s) = trim s.
Proof.
  unfold trim.
  rewrite (trimStart_fixed (trimEnd (trimStart s)))
    by apply trimEnd_head, trimStart_head.
  apply trimEnd_idempotent.
Qed.

Lemma trim_nil_cleanup (s : jsstring) : trim s = [] -> cleanup s = [].
Proof. intros H. unfold cleanup. rewrite H. reflexivity. Qed.

Lemma settle_resolved (s m : jsstring) (h h' : Host) :
  settle s h = (Resolved (Some m), h') -> m = cleanup s /\ m <> [] /\ h' = h.
Proof.
  unfold settle. destruct (cleanup s) as [| c t] eqn:Hclean; simpl.
  - unfold bind, showWarningMessage, notify, ret. discriminate.
  - unfold ret. intros H. injection H as <- <-. repeat split. discriminate.
Qed.

(** X7. The cleanup only removes: the cleaned message stands in the
    accumulated text as one contiguous piece, so no character is changed,
    added or reordered, and it is never longer than the text. *)
Theorem X7_cleanup_only_removes (accumulatedText : jsstring) :
  within (cleanup accumulatedText) accumulatedText
  /\ length (cleanup accumulatedText) <= length accumulatedText.
Proof.
  assert (H : within (cleanup accumulatedText) accumulatedText).
  { unfold cleanup.
    eapply within_trans; [apply trim_within |].
    eapply within_trans; [apply replaceLeadingIgnoreCase_within |].
    eapply within_trans; [apply trim_within |].
    eapply within_trans; [apply replaceLeadingIgnoreCase_within |].
    eapply within_trans; [apply stripQuotes_within |].
    apply trim_within. }
  split; [exact H |].
  destruct H as (a & b & H). rewrite H at 2. rewrite !length_app. lia.
Qed.

(** A string that [trim] leaves as it is has no white space at its ends. *)
Lemma trim_fixed_ends (s : jsstring) :
  trim s = s ->
  match s with
  | [] => True
  | c :: _ => isWhiteSpace c = false /\ isWhiteSpace (last s c) = false
  end.
Proof.
  intros Htrim. destruct s as [| c t]; [exact I |].
  remember (c :: t) as s eqn:Hs.
  assert (Hstart : trimStart s = s).
  { destruct (trimStart_suffix s) as [a Ha].
    destruct (trimEnd_prefix (trimStart s)) as [b Hb].
    unfold trim in Htrim. rewrite Htrim in Hb.
    assert (a = []) as ->; [| now symmetry].
    apply (f_equal (@length N)) in Ha. apply (f_equal (@length N)) in Hb.
    rewrite length_app in Ha, Hb. destruct a; [reflexivity | simpl in Ha; lia]. }
  assert (Hend : trimStart (rev s) = rev s).
  { unfold trim in Htrim. rewrite Hstart in Htrim. unfold trimEnd in Htrim.
    apply (f_equal (@rev N)) in Htrim. now rewrite rev_involutive in Htrim. }
  split.
  - pose proof (trimStart_head s) as H. rewrite Hstart, Hs in H. exact H.
  - pose proof (trimStart_head (rev s)) as H. rewrite Hend in H.
    destruct (exists_last (l := s)) as (front & z & Hz);
      [rewrite Hs; discriminate |].
    rewrite Hz in *. rewrite last_last. rewrite rev_app_distr in H. exact H.
Qed.

(** The white space of [trim] is the white space listed one by one. *)
Lemma isSpace_isWhiteSpace (c : N) : Spec.isSpace c = isWhiteSpace c.
Proof.
  unfold Spec.isSpace, Spec.whiteSpace, isWhiteSpace, between. cbn [existsb].
  repeat match goal with
         | |- context [(c =? ?v)%N] =>
             destruct (N.eqb_spec c v) as [-> | ?]; [reflexivity |]
         end.
  cbn [orb].
  repeat match goal with
         | |- context [(?a <=? ?b)%N] => destruct (N.leb_spec a b)
         end;
    cbn [andb orb]; try reflexivity; exfalso; lia.
Qed.

Lemma dropLeading_trimStart (s : jsstring) : Spec.dropLeading s = trimStart s.
Proof.
  induction s as [| c s IH]; [reflexivity |].
  simpl. now rewrite isSpace_isWhiteSpace, IH.
Qed.

Lemma trimStart_last (l : jsstring) (c : N) :
  trimStart (l ++ [c])
  = match trimStart l with
    | [] => if isWhiteSpace c then [] else [c]
    | kept => kept ++ [c]
    end.
Proof.
  induction l as [| a l IH]; [reflexivity |].
  simpl. destruct (isWhiteSpace a); [exact IH | reflexivity].
Qed.

Lemma dropTrailing_trimEnd (s : jsstring) : Spec.dropTrailing s = trimEnd s.
Proof.
  unfold trimEnd. induction s as [| c s IH]; [reflexivity |].
  simpl Spec.dropTrailing. simpl rev. rewrite trimStart_last, IH.
  destruct (trimStart (rev s)) as [| x kept].
  - simpl. rewrite isSpace_isWhiteSpace. now destruct (isWhiteSpace c).
  - replace (rev ((x :: kept) ++ [c])) with (c :: rev (x :: kept))
      by (now rewrite rev_app_distr).
    destruct (rev (x :: kept)) as [| y kept'] eqn:Hrev; [| reflexivity].
    apply (f_equal (@length N)) in Hrev. rewrite length_rev in Hrev. discriminate.
Qed.

Lemma trimmed_trim (s : jsstring) : Spec.trimmed s = trim s.
Proof.
  unfold Spec.trimmed, trim. now rewrite dropLeading_trimStart, dropTrailing_trimEnd.
Qed.

(** What [trimStart] drops is white space. *)
Lemma trimStart_drops_space (s : jsstring) :
  exists lead, s = lead ++ trimStart s /\ forallb Spec.isSpace lead = true.
Proof.
  induction s as [| c s (lead & IH & Hlead)]; [now exists [] |].
  simpl. destruct (isWhiteSpace c) eqn:E.
  - exists (c :: lead). simpl. rewrite isSpace_isWhiteSpace, E, Hlead.
    split; [now f_equal | reflexivity].
  - now exists [].
Qed.

Lemma trimEnd_drops_space (s : jsstring) :
  exists trail, s = trimEnd s ++ trail /\ forallb Spec.isSpace trail = true.
Proof.
  unfold trimEnd. destruct (trimStart_drops_space (rev s)) as (lead & Hs & Hlead).
  exists (rev lead). split.
  - rewrite <- rev_app_distr, <- Hs. now rewrite rev_involutive.
  - rewrite forallb_forall in *. intros c Hin. apply Hlead. now apply in_rev.
Qed.

(** C4. The cleanup of the code is the cleanup the specification words: trim;
    strip one layer of a matching pair of straight quotes around the whole
    string; strip a leading [commit message:] label, without regard to case,
    and trim; strip a leading [message:] label and trim.  The trimming is
    pinned down on its own: what [trim] takes from either end of a string is
    white space, and what it leaves neither starts nor ends with white
    space.  On the quoted input of the specification the cleanup yields
    [Refactor auth module], and on [Commit Message: Add retry logic] it
    yields [Add retry logic], also with white space around the input and
    behind the label. *)
Theorem C4_cleanup_postcondition :
  (forall accumulatedText, cleanup accumulatedText = Spec.cleanup accumulatedText)
  /\ (forall s, exists lead trail,
         s = lead ++ trim s ++ trail
         /\ forallb Spec.isSpace lead = true
         /\ forallb Spec.isSpace trail = true
         /\ match trim s with
            | [] => True
            | c :: _ => Spec.isSpace c = false /\ Spec.isSpace (last (trim s) c) = false
            end)
  /\ cleanup (txt "`Refactor auth module`") = txt "Refactor auth module"
  /\ cleanup (txt "Commit Message: Add retry logic") = txt "Add retry logic"
  /\ cleanup ([32; 9]%N ++ txt "`Refactor auth module`" ++ [32; 13; 10]%N)
     = txt "Refactor auth module"
  /\ cleanup ([10]%N ++ txt "commit MESSAGE:" ++ [9; 32]%N ++ txt "Add retry logic"
              ++ [32; 10]%N)
     = txt "Add retry logic".
Proof.
  split; [| split; [| repeat split; reflexivity]].
  - intros s. unfold cleanup, Spec.cleanup.
    rewrite !trimmed_trim, stripQuotes_wrapped.
    rewrite !matchIgnoreCase_stripLabel; [reflexivity | |];
      repeat (constructor; [reflexivity |]); constructor.
  - intros s. unfold trim.
    destruct (trimStart_drops_space s) as (lead & Hs & Hlead).
    destruct (trimEnd_drops_space (trimStart s)) as (trail & Ht & Htrail).
    exists lead, trail. repeat split; try assumption.
    + now rewrite <- Ht.
    + pose proof (trim_fixed_ends _ (trim_idempotent s)) as Hends.
      unfold trim in Hends.
      destruct (trimEnd (trimStart s)) as [| c t]; [exact I |].
      now rewrite !isSpace_isWhiteSpace.
Qed.

Lemma cleanup_trimmed (accumulatedText : jsstring) :
  trim (cleanup accumulatedText) = cleanup accumulatedText.
Proof. unfold cleanup. apply trim_idempotent. Qed.

(** X8. The cleaned message has no white space at either end, and no white
    space around what the quotes or a label left behind is kept: trimming
    the cleaned message again changes nothing, for every accumulated
    text. *)
Theorem X8_cleanup_is_trimmed (accumulatedText : jsstring) :
  trim (cleanup accumulatedText) = cleanup accumulatedText
  /\ match cleanup accumulatedText with
     | [] => True
     | c :: _ =>
         isWhiteSpace c = false
         /\ isWhiteSpace (last (cleanup accumulatedText) c) = false
     end.
Proof.
  split; [apply cleanup_trimmed |].
  pose proof (trim_fixed_ends _ (cleanup_trimmed accumulatedText)) as H.
  destruct (cleanup accumulatedText) as [| c t]; [exact I | exact H].
Qed.

(** X9. A stream that ends with nothing but white space accumulated (no
    record at all, or records with blank fragments) resolves with no
    message, under the warning of the empty message. *)
Theorem X9_blank_stream_is_empty_result
  (JSON_parse : jsstring -> option OllamaGenerateResponse)
  (address : jsstring) (data : list Buffer) (h : Host) :
  trim (accumulated JSON_parse data) = [] ->
  consume JSON_parse address {| chunks := data; ending := StreamEnd |} h
  = (Resolved None,
     addNotice (WarningMessage (txt "Ollama returned an empty message.")) h).
Proof.
  intros Hblank. unfold consume, onEnd. simpl.
  fold (accumulated JSON_parse data). unfold settle.
  now rewrite (trim_nil_cleanup _ Hblank).
Qed.

Lemma X9_blank_stream_is_empty_result_witness :
  let h := exampleHost (PostThrows (ThrownOther [])) in
  consume JSON.parseResponse (txt "http://localhost:11434/api/generate")
    {| chunks := [line "{`response`:` `}"; line "{`done`:true}"]; ending := StreamEnd |} h
  = (Resolved None,
     addNotice (WarningMessage (txt "Ollama returned an empty message.")) h).
Proof.
  intros h.
  apply (X9_blank_stream_is_empty_result JSON.parseResponse
           (txt "http://localhost:11434/api/generate")
           [line "{`response`:` `}"; line "{`done`:true}"] h).
  reflexivity.
Defined.


(* ================================================================== *)
(** ** Further properties of the generation and of the command handler *)
(* ================================================================== *)

Section Outcomes.
Variable JSON_parse : jsstring -> option OllamaGenerateResponse.

(** The outcomes of the generation: no request and a notice; or one request
    and then a notice with no message, a rejection with the notice of the
    stream error, or the cleaned message with no notice. *)
Lemma generateCommitMessage_cases (diffText : jsstring) (h : Host) :
  (exists n, generateCommitMessage JSON_parse diffText h = (Resolved None, addNotice n h))
  \/ exists address name template,
      truthy (apiUrl (configuration h)) = Some address
      /\ truthy (model (configuration h)) = Some name
      /\ truthy (prompt (configuration h)) = Some template
      /\ let request := requestFor (configuration h) address name template diffText in
         let sent := addRequest request h in
         (exists n, generateCommitMessage JSON_parse diffText h
                    = (Resolved None, addNotice n sent))
         \/ (exists data error,
                server h request
                = PostResponse {| chunks := data; ending := StreamError error |}
                /\ generateCommitMessage JSON_parse diffText h
                   = (Rejected (ThrownError error),
                      addNotice (ErrorMessage (streamFailure address error)) sent))
         \/ (exists data m,
                server h request
                = PostResponse {| chunks := data; ending := StreamEnd |}
                /\ m = cleanup (accumulated JSON_parse data) /\ m <> []
                /\ generateCommitMessage JSON_parse diffText h
                   = (Resolved (Some m), sent)).
Proof.
  destruct (truthy (apiUrl (configuration h))) as [address |] eqn:Ha;
    [| left; eexists; unfold generateCommitMessage, bind, getConfiguration;
       rewrite Ha; reflexivity].
  destruct (truthy (model (configuration h))) as [name |] eqn:Hn;
    [| left; eexists; unfold generateCommitMessage, bind, getConfiguration;
       rewrite Ha, Hn; reflexivity].
  destruct (truthy (prompt (configuration h))) as [template |] eqn:Ht;
    [| left; eexists; unfold generateCommitMessage, bind, getConfiguration;
       rewrite Ha, Hn, Ht; reflexivity].
  right. exists address, name, template. repeat (split; [reflexivity |]).
  intros request sent.
  rewrite (generateCommitMessage_answered JSON_parse diffText h address name template
             Ha Hn Ht).
  fold (requestFor (configuration h) address name template diffText).
  fold request. fold sent.
  destruct (server h request) as [e | [data [| error]]] eqn:Hserver.
  - left. eexists. reflexivity.
  - unfold consume, onEnd. simpl. fold (accumulated JSON_parse data).
    unfold settle.
    destruct (cleanup (accumulated JSON_parse data)) as [| c m] eqn:Hclean.
    + left. eexists. reflexivity.
    + right. right. exists data, (c :: m).
      repeat split; [now symmetry | discriminate].
  - right. left. exists data, error. split; reflexivity.
Qed.

(** The outcomes of the command handler. *)
Lemma commandHandler_cases (h : Host) :
  (exists n, commandHandler JSON_parse h = (Resolved tt, addNotice n h))
  \/ exists repo others c text address name template,
      git h = GitAPI (repo :: others)
      /\ diff repo = DiffText (c :: text)
      /\ truthy (apiUrl (configuration h)) = Some address
      /\ truthy (model (configuration h)) = Some name
      /\ truthy (prompt (configuration h)) = Some template
      /\ let request := requestFor (configuration h) address name template (c :: text) in
         let sent := addRequest request h in
         (exists n, commandHandler JSON_parse h = (Resolved tt, addNotice n sent))
         \/ (exists data error,
                server h request
                = PostResponse {| chunks := data; ending := StreamError error |}
                /\ commandHandler JSON_parse h
                   = (Rejected (ThrownError error),
                      addNotice (ErrorMessage (streamFailure address error)) sent))
         \/ (exists data m old,
                server h request
                = PostResponse {| chunks := data; ending := StreamEnd |}
                /\ m = cleanup (accumulated JSON_parse data) /\ m <> []
                /\ inputBox repo = Some old
                /\ commandHandler JSON_parse h
                   = (Resolved tt,
                      addNotice (InformationMessage (txt "Ollama commit message generated."))
                        (writeInputBox m sent))).
Proof.
  destruct (git h) as [| e | | [| repo others]] eqn:Hgit;
    try (left; eexists;
         unfold commandHandler, getGitAPI, getExtension, bind;
         rewrite Hgit; reflexivity).
  destruct (diff repo) as [[| c text] | e] eqn:Hdiff;
    try (left; eexists;
         unfold commandHandler, getGitAPI, getExtension, getStagedDiff, bind;
         rewrite Hgit; simpl; rewrite Hdiff; reflexivity).
  rewrite (commandHandler_generates JSON_parse h repo others c text Hgit Hdiff).
  destruct (generateCommitMessage_cases (c :: text) h)
    as [[n Hgen] | (address & name & template & Ha & Hn & Ht & Hcases)].
  - left. exists n. rewrite Hgen. reflexivity.
  - right. exists repo, others, c, text, address, name, template.
    repeat (split; [assumption || reflexivity |]).
    intros request sent. fold request in Hcases. fold sent in Hcases.
    destruct Hcases as [[n Hgen] | [(data & error & Hserver & Hgen)
                                   | (data & m & Hserver & Hm & Hne & Hgen)]];
      rewrite Hgen.
    + left. exists n. reflexivity.
    + right. left. exists data, error. now split.
    + destruct m as [| c' m']; [contradiction |].
      destruct (inputBox repo) as [old |] eqn:Hbox.
      * right. right. exists data, (c' :: m'), old.
        repeat (split; [assumption || reflexivity |]).
        unfold populate. simpl truthy. rewrite Hbox. reflexivity.
      * left. eexists. unfold populate. simpl truthy. rewrite Hbox. reflexivity.
Qed.

Lemma writeInputBox_keeps (text : jsstring) (h : Host) :
  notices (writeInputBox text h) = notices h
  /\ requests (writeInputBox text h) = requests h.
Proof.
  unfold writeInputBox. destruct (git h) as [| | | [| repo others]]; now split.
Qed.

End Outcomes.

(** X10. When the generation resolves with a message, the message is not
    empty and has no white space at either end, exactly one request was
    sent, and no notice was shown. *)
Theorem X10_resolved_message_is_not_empty
  (JSON_parse : jsstring -> option OllamaGenerateResponse)
  (diffText m : jsstring) (h h' : Host) :
  generateCommitMessage JSON_parse diffText h = (Resolved (Some m), h') ->
  m <> [] /\ trim m = m /\ notices h' = notices h
  /\ exists request, h' = addRequest request h.
Proof.
  intros Hgen.
  destruct (generateCommitMessage_cases JSON_parse diffText h)
    as [[n H] | (address & name & template & _ & _ & _ & Hcases)].
  - rewrite H in Hgen. discriminate.
  - cbv zeta in Hcases.
    destruct Hcases as [[n H] | [(data & error & _ & H) | (data & m' & _ & Hm & Hne & H)]];
      rewrite H in Hgen; try discriminate.
    injection Hgen as <- <-. repeat split.
    + exact Hne.
    + rewrite Hm. apply cleanup_trimmed.
    + eexists. reflexivity.
Qed.

Lemma X10_resolved_message_is_not_empty_witness :
  let h := exampleHost (PostResponse {| chunks := [line "{`response`:` 'Fix bug' `}"];
                                        ending := StreamEnd |}) in
  txt "Fix bug" <> [] /\ trim (txt "Fix bug") = txt "Fix bug"
  /\ notices (addRequest exampleRequest h) = notices h
  /\ exists request, addRequest exampleRequest h = addRequest request h.
Proof.
  intros h.
  apply (X10_resolved_message_is_not_empty JSON.parseResponse (txt "+ a line")
           (txt "Fix bug") h (addRequest exampleRequest h)).
  reflexivity.
Defined.

(** X11. Every invocation of the command shows exactly one notice, whatever
    happens: a missing Git extension or repository, no staged change, a
    missing setting, a failed request, a stream error, an empty result, a
    missing input box, or the message written. *)
Theorem X11_exactly_one_notice
  (JSON_parse : jsstring -> option OllamaGenerateResponse) (h : Host) :
  exists n, notices (snd (commandHandler JSON_parse h)) = notices h ++ [n].
Proof.
  destruct (commandHandler_cases JSON_parse h)
    as [[n H] | (repo & others & c & text & address & name & template
                 & _ & _ & _ & _ & _ & Hcases)].
  - exists n. rewrite H. reflexivity.
  - cbv zeta in Hcases.
    destruct Hcases as [[n H] | [(data & error & _ & H)
                                | (data & m & old & _ & _ & _ & _ & H)]];
      rewrite H; eexists; simpl; try reflexivity.
    now rewrite (proj1 (writeInputBox_keeps _ _)).
Qed.

(** X12. The command changes the repositories in one way only: it puts a
    message that is not empty into the input box of the first repository,
    which has one, and then it resolves.  The other repositories, and the
    staged diff, stay as they are; on every other path nothing is
    written. *)
Theorem X12_only_the_input_box_is_written
  (JSON_parse : jsstring -> option OllamaGenerateResponse) (h : Host) :
  git (snd (commandHandler JSON_parse h)) = git h
  \/ exists repo others old m,
      git h = GitAPI (repo :: others)
      /\ inputBox repo = Some old
      /\ m <> []
      /\ fst (commandHandler JSON_parse h) = Resolved tt
      /\ git (snd (commandHandler JSON_parse h))
         = GitAPI ({| diff := diff repo; inputBox := Some m |} :: others).
Proof.
  destruct (commandHandler_cases JSON_parse h)
    as [[n H] | (repo & others & c & text & address & name & template
                 & Hgit & _ & _ & _ & _ & Hcases)].
  - left. rewrite H. reflexivity.
  - cbv zeta in Hcases.
    destruct Hcases as [[n H] | [(data & error & _ & H)
                                | (data & m & old & _ & _ & Hne & Hbox & H)]].
    + left. rewrite H. reflexivity.
    + left. rewrite H. reflexivity.
    + right. exists repo, others, old, m.
      repeat (split; [assumption |]). rewrite H. split; [reflexivity |].
      simpl. unfold writeInputBox. simpl. rewrite Hgit. reflexivity.
Qed.

(** X13. The invocation of the command ends rejected only when the response
    stream emitted an error event, and then with that error: a failure to
    find Git, to read the diff, to read the settings or to send the request
    is caught and the invocation resolves. *)
Theorem X13_rejected_only_by_stream_error
  (JSON_parse : jsstring -> option OllamaGenerateResponse) (h : Host) (e : Thrown) :
  fst (commandHandler JSON_parse h) = Rejected e ->
  exists request data error,
    server h request = PostResponse {| chunks := data; ending := StreamError error |}
    /\ e = ThrownError error.
Proof.
  intros Hrejected.
  destruct (commandHandler_cases JSON_parse h)
    as [[n H] | (repo & others & c & text & address & name & template
                 & _ & _ & _ & _ & _ & Hcases)].
  - rewrite H in Hrejected. discriminate.
  - cbv zeta in Hcases.
    destruct Hcases as [[n H] | [(data & error & Hserver & H)
                                | (data & m & old & _ & _ & _ & _ & H)]];
      rewrite H in Hrejected; try discriminate.
    injection Hrejected as <-. eexists _, data, error. split; [exact Hserver | reflexivity].
Qed.

Lemma X13_rejected_only_by_stream_error_witness :
  let error := {| message := txt "read ECONNRESET"; kind := PlainError |} in
  let h := exampleHost (PostResponse {| chunks := []; ending := StreamError error |}) in
  exists request data error',
    server h request = PostResponse {| chunks := data; ending := StreamError error' |}
    /\ ThrownError error = ThrownError error'.
Proof.
  intros error h.
  apply (X13_rejected_only_by_stream_error JSON.parseResponse h (ThrownError error)).
  reflexivity.
Defined.

(** X14. An invocation sends at most one request, and sends it only when
    the first repository has a staged diff that is not empty and the three
    settings are present; the request goes to the configured address, names
    the configured model, asks for a stream and carries the prompt rendered
    from that diff.  Nothing is retried. *)
Theorem X14_one_request_for_a_staged_diff
  (JSON_parse : jsstring -> option OllamaGenerateResponse) (h : Host) :
  requests (snd (commandHandler JSON_parse h)) = requests h
  \/ exists repo others c text address name template,
      git h = GitAPI (repo :: others)
      /\ diff repo = DiffText (c :: text)
      /\ apiUrl (configuration h) = Some address /\ address <> []
      /\ model (configuration h) = Some name /\ name <> []
      /\ prompt (configuration h) = Some template /\ template <> []
      /\ requests (snd (commandHandler JSON_parse h))
         = requests h
           ++ [requestFor (configuration h) address name template (c :: text)].
Proof.
  destruct (commandHandler_cases JSON_parse h)
    as [[n H] | (repo & others & c & text & address & name & template
                 & Hgit & Hdiff & Ha & Hn & Ht & Hcases)].
  - left. rewrite H. reflexivity.
  - right. exists repo, others, c, text, address, name, template.
    apply truthy_present in Ha as [Ha Ha'].
    apply truthy_present in Hn as [Hn Hn'].
    apply truthy_present in Ht as [Ht Ht'].
    repeat (split; [assumption |]).
    cbv zeta in Hcases.
    destruct Hcases as [[n H] | [(data & error & _ & H)
                                | (data & m & old & _ & _ & _ & _ & H)]];
      rewrite H; simpl; try reflexivity.
    now rewrite (proj2 (writeInputBox_keeps _ _)).
Qed.

(* ================================================================== *)
(** ** Further properties of the prompt and of the lines *)
(* ================================================================== *)

Lemma substring_from_start (s : jsstring) (n : Z) :
  substring s 0 n = firstn (Z.to_nat n) s.
Proof.
  unfold substring, clamp.
  replace (Z.min (Z.max 0 (Z.min 0 (Z.of_nat (length s))))
             (Z.max 0 (Z.min n (Z.of_nat (length s))))) with 0%Z by lia.
  replace (Z.max (Z.max 0 (Z.min 0 (Z.of_nat (length s))))
             (Z.max 0 (Z.min n (Z.of_nat (length s)))))
    with (Z.max 0 (Z.min n (Z.of_nat (length s)))) by lia.
  rewrite Z.sub_0_r. simpl skipn.
  destruct (Z.le_gt_cases n (Z.of_nat (length s))) as [Hle | Hgt].
  - f_equal. lia.
  - rewrite !firstn_all2 by lia. reflexivity.
Qed.

Lemma startsWith_prefix (p r : jsstring) : startsWith (p ++ r) p = true.
Proof.
  induction p as [| a p IH]; [reflexivity |].
  simpl. now rewrite N.eqb_refl, IH.
Qed.

Lemma search_unfold (pat s : jsstring) :
  search pat s
  = if startsWith s pat then Some ([], skipn (length pat) s)
    else match s with
         | [] => None
         | c :: s' =>
             match search pat s' with
             | Some (before, after) => Some (c :: before, after)
             | None => None
             end
         end.
Proof. destruct s; reflexivity. Qed.

(** [search] finds something wherever the pattern occurs, and not behind
    the occurrence. *)
Lemma search_complete (pat before after : jsstring) :
  exists before0 after0,
    search pat (before ++ pat ++ after) = Some (before0, after0)
    /\ length before0 <= length before.
Proof.
  induction before as [| c before (b0 & a0 & IH & Hlen)].
  - simpl app. rewrite search_unfold, startsWith_prefix.
    eexists _, _. split; [reflexivity | simpl; lia].
  - simpl app. rewrite search_unfold.
    destruct (startsWith (c :: before ++ pat ++ after) pat).
    + eexists _, _. split; [reflexivity | simpl; lia].
    + rewrite IH. eexists _, _. split; [reflexivity | simpl; lia].
Qed.

(** What [search] finds is the first occurrence. *)
Lemma search_first (pat s before0 after0 : jsstring) :
  search pat s = Some (before0, after0) ->
  forall before after, s = before ++ pat ++ after -> length before0 <= length before.
Proof.
  revert before0. induction s as [| c s IH]; intros before0 H before after Hs;
    rewrite search_unfold in H.
  - destruct (startsWith [] pat); [| discriminate].
    injection H as <- _. simpl. lia.
  - destruct (startsWith (c :: s) pat) eqn:E.
    + injection H as <- _. simpl. lia.
    + destruct (search pat s) as [[b1 a1] |] eqn:Hs'; [| discriminate].
      injection H as <- <-.
      destruct before as [| c' before].
      * simpl in Hs. rewrite Hs, startsWith_prefix in E. discriminate.
      * simpl in Hs. injection Hs as _ Hs.
        simpl. apply le_n_S. eapply IH; [reflexivity | exact Hs].
Qed.

Lemma app_same_length (a b x y : jsstring) :
  length a = length b -> a ++ x = b ++ y -> a = b /\ x = y.
Proof.
  revert b. induction a as [| c a IH]; intros [| d b] Hlen H;
    try discriminate; [now split |].
  simpl in *. injection H as -> H. injection Hlen as Hlen.
  destruct (IH b Hlen H) as [-> ->]. now split.
Qed.

(** X15. The diff that goes into the prompt is the diff itself when it is
    no longer than the maximum, and else its first characters up to the
    maximum (none for a negative maximum) followed by the marker: it is
    never longer than the 21 characters of the marker after the maximum,
    a negative maximum counting as zero. *)
Theorem X15_truncated_diff_is_bounded (diffText : jsstring) (maxLength : Z) :
  truncate diffText maxLength
  = (if (Z.of_nat (length diffText) <=? maxLength)%Z then diffText
     else firstn (Z.to_nat maxLength) diffText ++ truncationMarker)
  /\ length (truncate diffText maxLength) <= Z.to_nat maxLength + 21.
Proof.
  unfold truncate. rewrite substring_from_start.
  destruct (Z.gtb_spec (Z.of_nat (length diffText)) maxLength) as [Hgt | Hle];
    destruct (Z.leb_spec (Z.of_nat (length diffText)) maxLength); try lia.
  - split; [reflexivity |]. rewrite length_app, length_firstn.
    change (length truncationMarker) with 21. lia.
  - split; [reflexivity | lia].
Qed.

(** X16. For a diff without a dollar sign, the prompt is the template with
    its first [{diff}] replaced by the diff, truncated when too long; what
    follows the first placeholder is kept as it is, placeholders
    included. *)
Theorem X16_first_placeholder_is_replaced
  (promptTemplate before after diffText : jsstring) (maxLength : nat) :
  promptTemplate = before ++ txt "{diff}" ++ after ->
  (forall b a, promptTemplate = b ++ txt "{diff}" ++ a -> length before <= length b) ->
  ~ In 36%N diffText ->
  renderPrompt promptTemplate diffText (Z.of_nat maxLength)
  = before
    ++ (if length diffText <=? maxLength then diffText
        else firstn maxLength diffText ++ truncationMarker)
    ++ after.
Proof.
  intros Htemplate Hfirst Hno.
  destruct (search_complete (txt "{diff}") before after) as (b0 & a0 & Hsearch & Hlen).
  rewrite <- Htemplate in Hsearch.
  pose proof (search_sound _ _ _ _ Hsearch) as Hsound.
  pose proof (Hfirst b0 a0 Hsound) as Hlen'.
  assert (Heq : b0 = before /\ txt "{diff}" ++ a0 = txt "{diff}" ++ after).
  { apply app_same_length; [lia |]. now rewrite <- Hsound. }
  destruct Heq as [-> Heq]. apply app_inv_head in Heq. subst a0.
  exact (proj2 (renderPrompt_no_dollar promptTemplate before after diffText maxLength
                  Hsearch Hno)).
Qed.

Lemma X16_first_placeholder_is_replaced_witness :
  renderPrompt (txt "Diff: {diff} Do not repeat {diff} in the answer.")
    (txt "+ a line") (Z.of_nat 4)
  = txt "Diff: "
    ++ (if length (txt "+ a line") <=? 4 then txt "+ a line"
        else firstn 4 (txt "+ a line") ++ truncationMarker)
    ++ txt " Do not repeat {diff} in the answer.".
Proof.
  apply (X16_first_placeholder_is_replaced
           (txt "Diff: {diff} Do not repeat {diff} in the answer.")
           (txt "Diff: ") (txt " Do not repeat {diff} in the answer.")
           (txt "+ a line") 4).
  - reflexivity.
  - intros b a Hb.
    apply (search_first (txt "{diff}")
             (txt "Diff: {diff} Do not repeat {diff} in the answer.")
             (txt "Diff: ") (txt " Do not repeat {diff} in the answer.")
             eq_refl b a Hb).
  - intros Hin. vm_compute in Hin. intuition discriminate.
Defined.

(** X17. A template without the placeholder is sent as it is: the diff
    does not reach the prompt, whatever it holds, and nothing reports it. *)
Theorem X17_template_without_placeholder
  (promptTemplate diffText : jsstring) (maxLength : Z) :
  (forall b a, promptTemplate <> b ++ txt "{diff}" ++ a) ->
  renderPrompt promptTemplate diffText maxLength = promptTemplate.
Proof.
  intros Habsent. unfold renderPrompt, replace.
  destruct (search (txt "{diff}") promptTemplate) as [[b a] |] eqn:Hsearch;
    [| reflexivity].
  exfalso. exact (Habsent b a (search_sound _ _ _ _ Hsearch)).
Qed.

Lemma X17_template_without_placeholder_witness :
  renderPrompt (txt "Write a commit message for {DIFF}") (txt "+ cost=$$5") 4000
  = txt "Write a commit message for {DIFF}".
Proof.
  apply (X17_template_without_placeholder
           (txt "Write a commit message for {DIFF}") (txt "+ cost=$$5") 4000).
  intros b a Hb.
  destruct (search_complete (txt "{diff}") b a) as (b0 & a0 & Hsearch & _).
  rewrite <- Hb in Hsearch. vm_compute in Hsearch. discriminate.
Defined.

Lemma split_lines_have_no_separator (sep : N) (s : jsstring) :
  Forall (fun l => ~ In sep l) (split sep s).
Proof.
  induction s as [| c s IH]; [constructor; [intros [] | constructor] |].
  simpl. destruct (N.eqb_spec c sep) as [-> | Hne].
  - constructor; [intros [] | exact IH].
  - pose proof (split_not_nil sep s) as Hnil.
    destruct (split sep s) as [| l ls]; [contradiction |].
    inversion IH as [| ? ? Hl Hls]; subst.
    constructor; [| exact Hls].
    intros [-> | Hin]; [now apply Hne | now apply Hl].
Qed.

(** X18. The candidate lines of a buffer are the buffer: no line holds a
    newline, there is at least one line, and the lines put together again
    with a newline after each but the last are the text that was split. *)
Theorem X18_split_lines_rebuild_the_text (s : jsstring) :
  split 10 s <> []
  /\ Forall (fun l => ~ In 10%N l) (split 10 s)
  /\ concat (map (fun l => l ++ [10%N]) (removelast (split 10 s)))
     ++ lastCandidate s = s.
Proof.
  split; [apply split_not_nil |].
  split; [apply split_lines_have_no_separator | apply split_join].
Qed.

(* ================================================================== *)
(** ** Compact records under [JSON.parse] *)
(* ================================================================== *)

Lemma parseChars_plain (s rest : jsstring) :
  forallb plain s = true ->
  JSON.parseChars (s ++ 34%N :: rest) = Some (s, rest).
Proof.
  induction s as [| c s IH]; intros Hplain; [reflexivity |].
  simpl in Hplain. apply andb_prop in Hplain as [Hc Hs].
  unfold plain in Hc. apply andb_prop in Hc as [Hc Hbackslash].
  apply andb_prop in Hc as [Hcontrol Hquote].
  simpl app. simpl JSON.parseChars.
  apply negb_true_iff in Hquote, Hbackslash. rewrite Hquote, Hbackslash.
  apply N.leb_le in Hcontrol.
  destruct (N.ltb_spec c 32) as [Hlt | _]; [lia |].
  now rewrite (IH Hs).
Qed.

Lemma parseChars_plain_open (s : jsstring) :
  forallb plain s = true -> JSON.parseChars s = None.
Proof.
  induction s as [| c s IH]; intros Hplain; [reflexivity |].
  simpl in Hplain. apply andb_prop in Hplain as [Hc Hs].
  unfold plain in Hc. apply andb_prop in Hc as [Hc Hbackslash].
  apply andb_prop in Hc as [Hcontrol Hquote].
  simpl JSON.parseChars.
  apply negb_true_iff in Hquote, Hbackslash. rewrite Hquote, Hbackslash.
  apply N.leb_le in Hcontrol.
  destruct (N.ltb_spec c 32) as [Hlt | _]; [lia |].
  now rewrite (IH Hs).
Qed.

Lemma parse_response_member_open (x : jsstring) :
  JSON.parseChars x = None ->
  JSON.parse (txt "{`response`:`" ++ x) = None.
Proof.
  intros Hx. unfold JSON.parse. rewrite length_app.
  change (length (txt "{`response`:`")) with 13.
  change (S (13 + length x)) with (S (S (12 + length x))).
  generalize (12 + length x). intros f.
  let h := eval vm_compute in (txt "{`response`:`") in
  change (txt "{`response`:`") with h.
  cbn. rewrite Hx. reflexivity.
Qed.

Lemma parse_response_member_unclosed (x str : jsstring) :
  JSON.parseChars x = Some (str, []) ->
  JSON.parse (txt "{`response`:`" ++ x) = None.
Proof.
  intros Hx. unfold JSON.parse. rewrite length_app.
  change (length (txt "{`response`:`")) with 13.
  change (S (13 + length x)) with (S (S (12 + length x))).
  generalize (12 + length x). intros f.
  let h := eval vm_compute in (txt "{`response`:`") in
  change (txt "{`response`:`") with h.
  cbn. rewrite Hx. reflexivity.
Qed.

Lemma parse_response_member_closed (x str : jsstring) :
  JSON.parseChars x = Some (str, [125%N]) ->
  JSON.parse (txt "{`response`:`" ++ x)
  = Some (JSON.Object [(txt "response", JSON.Str str)]).
Proof.
  intros Hx. unfold JSON.parse. rewrite length_app.
  change (length (txt "{`response`:`")) with 13.
  change (S (13 + length x)) with (S (S (12 + length x))).
  generalize (12 + length x). intros f.
  let h := eval vm_compute in (txt "{`response`:`") in
  change (txt "{`response`:`") with h.
  cbn. rewrite Hx. reflexivity.
Qed.

(** The compact record of a plain fragment parses to that fragment. *)
Lemma parseResponse_recordOf (fragmentText : jsstring) :
  forallb plain fragmentText = true ->
  JSON.parseResponse (recordOf fragmentText)
  = Some {| response := Some fragmentText; done := false |}.
Proof.
  intros Hplain. unfold JSON.parseResponse, recordOf.
  rewrite (parse_response_member_closed _ fragmentText)
    by (apply parseChars_plain; exact Hplain).
  reflexivity.
Qed.

Lemma trim_between (c d : N) (middle : jsstring) :
  isWhiteSpace c = false -> isWhiteSpace d = false ->
  trim (c :: middle ++ [d]) = c :: middle ++ [d].
Proof.
  intros Hc Hd.
  assert (Hrev : rev (c :: middle ++ [d]) = d :: rev (c :: middle))
    by (change (c :: middle ++ [d]) with ((c :: middle) ++ [d]);
        now rewrite rev_app_distr).
  unfold trim. cbn [trimStart]. rewrite Hc.
  unfold trimEnd. rewrite Hrev. cbn [trimStart]. rewrite Hd.
  rewrite <- Hrev. apply rev_involutive.
Qed.

Lemma forallb_plain_prefix (l rest : jsstring) :
  forallb plain (l ++ rest) = true -> forallb plain l = true.
Proof. rewrite forallb_app. intros H. now apply andb_prop in H. Qed.

(** The compact record of a plain fragment is a well-formed record for
    [JSON.parse]: no shorter beginning of it parses. *)
Lemma recordOf_wellFormed (fragmentText : jsstring) :
  forallb plain fragmentText = true ->
  wellFormedRecord JSON.parseResponse (recordOf fragmentText).
Proof.
  intros Hplain. repeat split.
  - unfold recordOf. intros Hin.
    apply in_app_or in Hin as [Hin | Hin];
      [vm_compute in Hin; intuition discriminate |].
    apply in_app_or in Hin as [Hin | Hin];
      [| vm_compute in Hin; intuition discriminate].
    rewrite forallb_forall in Hplain. specialize (Hplain _ Hin). discriminate.
  - unfold notBlank, recordOf.
    change (txt "{`response`:`" ++ fragmentText ++ txt "`}")
      with (123%N :: (txt "`response`:`" ++ fragmentText ++ [34%N; 125%N])).
    replace (txt "`response`:`" ++ fragmentText ++ [34%N; 125%N])
      with ((txt "`response`:`" ++ fragmentText ++ [34%N]) ++ [125%N])
      by (now rewrite <- !app_assoc).
    rewrite trim_between by reflexivity. reflexivity.
  - eexists. now apply parseResponse_recordOf.
  - intros t rest Hsplit Hrest _. unfold JSON.parseResponse.
    assert (Hparse : JSON.parse t = None); [| now rewrite Hparse].
    unfold recordOf in Hsplit. symmetry in Hsplit.
    apply app_eq_app in Hsplit as [l [[Ht Hl] | [Hhead _]]].
    + subst t. apply app_eq_app in Hl as [l' [[Hs _] | [Hl Htail]]].
      * apply parse_response_member_open, parseChars_plain_open.
        rewrite Hs in Hplain. exact (forallb_plain_prefix _ _ Hplain).
      * subst l. destruct l' as [| q l'].
        -- rewrite app_nil_r. apply parse_response_member_open.
           now apply parseChars_plain_open.
        -- simpl in Htail. injection Htail as <- Htail.
           destruct l' as [| b l'].
           ++ apply (parse_response_member_unclosed _ fragmentText).
              now apply parseChars_plain.
           ++ exfalso. simpl in Htail. injection Htail as _ Htail.
              symmetry in Htail. apply app_eq_nil in Htail as [_ ->].
              now apply Hrest.
    + assert (Ht : t = firstn (length t) (txt "{`response`:`"))
        by (rewrite Hhead, firstn_app, firstn_all, Nat.sub_diag; simpl;
            now rewrite app_nil_r).
      assert (Hlen : length t <= 13)
        by (apply (f_equal (@length N)) in Hhead; rewrite length_app in Hhead;
            change (length (txt "{`response`:`")) with 13 in Hhead; lia).
      rewrite Ht.
      assert (Hall : forallb (fun n => match JSON.parse (firstn n (txt "{`response`:`")) with
                                       | None => true
                                       | Some _ => false
                                       end) (seq 0 14) = true)
        by (vm_compute; reflexivity).
      rewrite forallb_forall in Hall. specialize (Hall (length t)).
      destruct (JSON.parse (firstn (length t) (txt "{`response`:`")));
        [| reflexivity].
      assert (false = true); [| discriminate].
      apply Hall, in_seq. lia.
Qed.

Lemma fragments_recordOf (texts : list jsstring) :
  Forall (fun text => forallb plain text = true) texts ->
  fragments JSON.parseResponse (map recordOf texts) = concat texts.
Proof.
  induction 1 as [| text texts Hplain _ IH]; [reflexivity |].
  unfold fragments in *. simpl.
  rewrite (parseResponse_recordOf text Hplain), IH. reflexivity.
Qed.

(** X2. For [JSON.parse] itself: a stream of compact records whose
    fragments are plain characters (no control character, quote or
    backslash) accumulates to the fragments put end to end, for every cut
    of its decoded text into chunks. *)
Theorem X2_compact_records_accumulate
  (texts : list jsstring) (data : list Buffer) :
  Forall (fun text => forallb plain text = true) texts ->
  concat (map toString data) = streamText (map recordOf texts) ->
  accumulated JSON.parseResponse data = concat texts.
Proof.
  intros Hplain Hdata. unfold accumulated.
  rewrite (feed_wellFormed JSON.parseResponse data start (map recordOf texts) []).
  - simpl. now apply fragments_recordOf.
  - now left.
  - apply Forall_map. eapply Forall_impl; [| exact Hplain].
    intros text. apply recordOf_wellFormed.
  - exact Hdata.
  - simpl. lia.
Qed.

Lemma X2_compact_records_accumulate_witness :
  accumulated JSON.parseResponse
    [bytes "{`response`:`Fix"; bytes " `}" ++ [x0a] ++ bytes "{`resp";
     bytes "onse`:`bug`}"; [x0a]]
  = concat [txt "Fix "; txt "bug"].
Proof.
  apply (X2_compact_records_accumulate [txt "Fix "; txt "bug"]).
  - repeat (apply Forall_cons; [reflexivity |]). apply Forall_nil.
  - reflexivity.
Defined.


(* ================================================================== *)
(** ** A stream cut off in its last line *)
(* ================================================================== *)



Section CutOff.
Variable JSON_parse : jsstring -> option OllamaGenerateResponse.



End CutOff.




(** X19. Chunks of ASCII bytes decode to the code units of their bytes, so
    decoding them one by one gives the text of the whole: for ASCII the
    place of the chunk boundaries does not show in the decoded text. *)
Theorem X19_ascii_decodes_chunk_by_chunk (data : list Buffer) :
  Forall (fun b => (Byte.to_N b <= 0x7F)%N) (concat data) ->
  concat (map toString data) = toString (concat data)
  /\ toString (concat data) = map Byte.to_N (concat data).
Proof.
  intros Hascii. rewrite (toString_ascii (concat data) Hascii).
  split; [now apply toString_ascii_chunks | reflexivity].
Qed.

Lemma X19_ascii_decodes_chunk_by_chunk_witness :
  concat (map toString [bytes "{`resp"; bytes "onse`:"; bytes "`a`}"])
  = toString (concat [bytes "{`resp"; bytes "onse`:"; bytes "`a`}"])
  /\ toString (concat [bytes "{`resp"; bytes "onse`:"; bytes "`a`}"])
     = map Byte.to_N (concat [bytes "{`resp"; bytes "onse`:"; bytes "`a`}"]).
Proof.
  apply (X19_ascii_decodes_chunk_by_chunk [bytes "{`resp"; bytes "onse`:"; bytes "`a`}"]).
  apply Forall_forall. intros b Hb. apply N.leb_le.
  revert b Hb. apply forallb_forall. vm_compute. reflexivity.
Defined.

(* ================================================================== *)
(** ** Quotes and clean messages *)
(* ================================================================== *)

Lemma wrapped_pair (q q' : N) (inside : jsstring) :
  Spec.wrapped (q :: inside ++ [q'])
  = if Spec.isQuote q && (q' =? q)%N then Some inside else None.
Proof.
  unfold Spec.wrapped. rewrite rev_app_distr. cbn [rev app].
  now rewrite rev_involutive.
Qed.

(** X21. A message that is trimmed and starts with neither label comes out
    of the cleanup as it is when it is not quoted, and a pair of straight
    quotes around it is removed as exactly one layer: quotes that belong to
    the message itself stay. *)
Theorem X21_one_layer_of_quotes (message : jsstring) :
  trim message = message ->
  matchIgnoreCase (txt "commit message:") message = None ->
  matchIgnoreCase (txt "message:") message = None ->
  (quoted message = false -> cleanup message = message)
  /\ (forall q, q = 34%N \/ q = 39%N -> cleanup (q :: message ++ [q]) = message).
Proof.
  intros Htrim Hfirst Hsecond.
  assert (Hlabels : trim (replaceLeadingIgnoreCase
                            (trim (replaceLeadingIgnoreCase message (txt "commit message:")))
                            (txt "message:")) = message).
  { unfold replaceLeadingIgnoreCase. rewrite Hfirst, Htrim, Hsecond. exact Htrim. }
  split.
  - intros Hquoted. unfold cleanup, stripQuotes. rewrite Htrim, Hquoted.
    exact Hlabels.
  - intros q Hq. unfold cleanup.
    rewrite trim_between by (destruct Hq; subst q; reflexivity).
    rewrite stripQuotes_wrapped, wrapped_pair.
    assert (Hsame : Spec.isQuote q && (q =? q)%N = true)
      by (destruct Hq; subst q; reflexivity).
    rewrite Hsame. exact Hlabels.
Qed.

Lemma X21_one_layer_of_quotes_witness :
  cleanup (txt "`Fix` the parser") = txt "`Fix` the parser"
  /\ cleanup (34%N :: txt "`Fix` the parser" ++ [34%N]) = txt "`Fix` the parser".
Proof.
  destruct (X21_one_layer_of_quotes (txt "`Fix` the parser") eq_refl eq_refl eq_refl)
    as [Hplain Hquoted].
  split; [apply Hplain; reflexivity | apply Hquoted; now left].
Defined.
